(** * RAG-Summary: the document normalizer and the Cohere Compass pipeline

    A shallow embedding of [document_processor.py] and [cohere_compass.py].

    Python [str] values are sequences of Unicode code points; they are
    modelled as lists of [N].  [len] is a Python [int], hence a [Z].
    The language model behind [client.chat], the JSON parser and the file
    readers are collaborators of the program and appear as parameters. *)

From Stdlib Require Import List ZArith NArith QArith_base Bool Lia String Ascii.
From Stdlib Require Import DecimalString.
Import ListNotations.

Local Open Scope Z_scope.

(** ** Python strings *)

Module PyStr.

Definition char := N.
Definition pystr := list char.

(** A code point written as a character literal, a string as a literal. *)
Definition ch (a : ascii) : char := N_of_ascii a.
Definition lit (s : string) : pystr := List.map N_of_ascii (list_ascii_of_string s).

Definition len (s : pystr) : Z := Z.of_nat (List.length s).

Definition LF : char := 10%N.
Definition SP : char := 32%N.
Definition DQ : char := 34%N.

(** [ch in lo..hi] *)
Definition between (lo hi c : N) : bool := (lo <=? c)%N && (c <=? hi)%N.

(** [str.isspace()] on one code point, which is also what [\s] matches in a
    [str] pattern: the characters of bidirectional type WS, B or S and of
    category Zs. *)
Definition is_space (c : char) : bool :=
  between 9 13 c || between 28 32 c || (c =? 133)%N || (c =? 160)%N
  || (c =? 5760)%N || between 8192 8202 c || (c =? 8232)%N || (c =? 8233)%N
  || (c =? 8239)%N || (c =? 8287)%N || (c =? 12288)%N.

(** The ASCII part of [\w]: letters, digits and the underscore. *)
Definition ascii_word (c : char) : bool :=
  between 48 57 c || between 65 90 c || between 97 122 c || (c =? 95)%N.

(** [s[:n]] *)
Definition slice_to (s : pystr) (n : Z) : pystr :=
  if n <? 0 then firstn (Z.to_nat (len s + n)) s else firstn (Z.to_nat n) s.

(** [s.lstrip()], [s.rstrip()] and [s.strip()] *)
Fixpoint lstrip (s : pystr) : pystr :=
  match s with
  | [] => []
  | c :: r => if is_space c then lstrip r else s
  end.

Fixpoint rstrip (s : pystr) : pystr :=
  match s with
  | [] => []
  | c :: r =>
      match rstrip r with
      | [] => if is_space c then [] else [c]
      | r' => c :: r'
      end
  end.

Definition strip (s : pystr) : pystr := rstrip (lstrip s).

(** The string begins with a whitespace character. *)
Definition starts_with_space (s : pystr) : bool :=
  match s with [] => false | c :: _ => is_space c end.

(** Two whitespace characters in a row somewhere in the string. *)
Fixpoint has_ws_run (s : pystr) : bool :=
  match s with
  | [] => false
  | c :: r => (is_space c && starts_with_space r) || has_ws_run r
  end.

(** [s.lstrip(chars)] for a one-character [chars] *)
Fixpoint lstrip_char (x : char) (s : pystr) : pystr :=
  match s with
  | [] => []
  | c :: r => if (c =? x)%N then lstrip_char x r else s
  end.

(** [s.startswith(p)] *)
Fixpoint startswith (s p : pystr) : bool :=
  match p, s with
  | [], _ => true
  | _ :: _, [] => false
  | a :: p', c :: s' => (c =? a)%N && startswith s' p'
  end.

(** [s.split(sep)] for a non-empty [sep]: the separator is searched from the
    left, occurrences do not overlap. [skip] counts the characters of a
    separator that was recognised and is still to be passed over, [cur] is
    the piece being read, last character first. *)
Fixpoint split_go (sep : pystr) (skip : nat) (cur : pystr) (s : pystr)
  : list pystr :=
  match s with
  | [] => [rev' cur]
  | c :: r =>
      match skip with
      | S k => split_go sep k cur r
      | O =>
          if startswith s sep
          then rev' cur :: split_go sep (Nat.pred (List.length sep)) [] r
          else split_go sep O (c :: cur) r
      end
  end.

Definition split (s sep : pystr) : list pystr := split_go sep O [] s.

(** [sep.join(parts)] *)
Fixpoint join (sep : pystr) (parts : list pystr) : pystr :=
  match parts with
  | [] => []
  | [p] => p
  | p :: rest => p ++ sep ++ join sep rest
  end.

(** [a == b] *)
Fixpoint str_eqb (a b : pystr) : bool :=
  match a, b with
  | [], [] => true
  | x :: a', y :: b' => (x =? y)%N && str_eqb a' b'
  | _, _ => false
  end.

(** Truth value of a string: [if s:] *)
Definition truthy (s : pystr) : bool :=
  match s with [] => false | _ :: _ => true end.

End PyStr.

Import PyStr.

(** ** document_processor.py *)

Module DocumentProcessor.

Record t := mk {
  supported_formats : list pystr;
  max_content_length : Z
}.

(** [DocumentProcessor.__init__] *)
Definition init : t :=
  {| supported_formats :=
       [lit ".pdf"; lit ".txt"; lit ".md"; lit ".docx"; lit ".csv"];
     max_content_length := 500000 |}.

Definition truncation_marker : pystr := lit "... [Content truncated]".

Section Cleaning.

(** [str.isalnum()] on the code points above ASCII, as the interpreter's
    Unicode database has it. *)
Variable unicode_alnum : char -> bool.

(** [\w] in a [str] pattern *)
Definition is_word (c : char) : bool :=
  if (c <? 128)%N then ascii_word c else unicode_alnum c.

(** [re.sub(r'\s+', ' ', content)]: [in_run] tells that the previous
    character belonged to the whitespace run being replaced. *)
Fixpoint sub_ws (in_run : bool) (s : pystr) : pystr :=
  match s with
  | [] => []
  | c :: r =>
      if is_space c
      then (if in_run then sub_ws true r else SP :: sub_ws true r)
      else c :: sub_ws false r
  end.

(** The class [[\w\s\.\,\;\:\!\?\-\(\)\[\]]] *)
Definition is_safe (c : char) : bool :=
  is_word c || is_space c
  || existsb (N.eqb c)
       [ch "."; ch ","; ch ";"; ch ":"; ch "!"; ch "?"; ch "-";
        ch "("; ch ")"; ch "["; ch "]"].

(** [re.sub(r'[^\w\s\.\,\;\:\!\?\-\(\)\[\]]', '', content)] *)
Definition sub_unsafe (s : pystr) : pystr := filter is_safe s.

(** The content once both substitutions are done: what [len(content)] is
    compared with the maximum. *)
Definition cleaned (content : pystr) : pystr := sub_unsafe (sub_ws false content).

(** [DocumentProcessor._clean_content] *)
Definition _clean_content (self : t) (content : pystr) : pystr :=
  if negb (truthy content) then []
  else
    let content := sub_ws false content in
    let content := sub_unsafe content in
    let content :=
      if len content >? max_content_length self
      then slice_to content (max_content_length self) ++ truncation_marker
      else content in
    strip content.

End Cleaning.

(** What the file system and the reader of the file's format hand to
    [process_document] for one path. *)
Record file_view := {
  fv_exists : bool;            (* Path(file_path).exists() *)
  fv_suffix : pystr;           (* Path(file_path).suffix.lower() *)
  fv_extracted : option pystr  (* the text the reader passes to
                                  _clean_content; None when it raises or
                                  its library is not installed *)
}.

Section Reading.

Variable unicode_alnum : char -> bool.
Variable fs : pystr -> file_view.

(** [DocumentProcessor.process_document]: every exception, the missing file
    included, is logged and turned into the empty string. *)
Definition process_document (self : t) (file_path : pystr) : pystr :=
  let f := fs file_path in
  if negb (fv_exists f) then []
  else if negb (existsb (str_eqb (fv_suffix f)) (supported_formats self)) then []
  else
    match fv_extracted f with
    | Some content => _clean_content unicode_alnum self content
    | None => []
    end.

End Reading.

(** The truncation as the specification words it, for a given marker: the
    first [max_content_length] characters of the cleaned content, then the
    marker. *)
Definition truncated_as_stated (marker : pystr) (unicode_alnum : char -> bool)
    (self : t) (raw : pystr) : Prop :=
  let c := cleaned unicode_alnum raw in
  let out := _clean_content unicode_alnum self raw in
  out = firstn (Z.to_nat (max_content_length self)) c ++ marker
  /\ len out = max_content_length self + len marker.

(** An interpreter table with no alphanumeric character above ASCII, for
    runs on ASCII text. *)
Definition ascii_only : char -> bool := fun _ => false.

(** 500,001 times the letter a, and the same after one space. *)
Definition long_text : pystr := repeat (ch "a") (N.to_nat 500001).
Definition spaced_long_text : pystr := SP :: long_text.

End DocumentProcessor.

(** ** config.py *)

Module Config.

Record LLMConfig := {
  cohere_api_key : option pystr;
  default_provider : pystr;
  model_name : pystr;
  temperature : Q;
  max_tokens : Z;
  compass_dataset_id : option pystr
}.

(** The defaults of [LLMConfig]; the two identifiers come from the
    environment. *)
Definition llm_defaults (api_key dataset_id : option pystr) : LLMConfig :=
  {| cohere_api_key := api_key;
     default_provider := lit "cohere";
     model_name := lit "command-a-03-2025";
     temperature := (1 # 10)%Q;
     max_tokens := 8000;
     compass_dataset_id := dataset_id |}.

End Config.

(** ** cohere_compass.py *)

Module CohereCompassRAG.

(** *** The collaborators *)

Inductive exn :=
| ValueError (msg : pystr)
| RecursionError (msg : pystr)
| ClientError (msg : pystr).   (* whatever [client.chat] raises *)

(** One call of [client.chat]. *)
Record ChatRequest := {
  req_model : pystr;
  req_message : pystr;
  req_temperature : Q;
  req_max_tokens : Z
}.

(** The calls made so far, oldest first. *)
Definition history := list ChatRequest.

(** A method of the class: it may call the model and may raise. *)
Definition io (A : Type) : Type := history -> (exn + A) * history.

Definition ret {A} (a : A) : io A := fun h => (inr a, h).
Definition raise {A} (e : exn) : io A := fun h => (inl e, h).
Definition bind {A B} (m : io A) (k : A -> io B) : io B :=
  fun h =>
    match m h with
    | (inl e, h') => (inl e, h')
    | (inr a, h') => k a h'
    end.

Notation "x <- m ;; k" := (bind m (fun x => k))
  (at level 61, m at next level, right associativity).

#[local] Unset Elimination Schemes.
(** What [json.loads] builds. A number keeps its text. *)
Inductive json :=
| JNull
| JBool (b : bool)
| JNum (text : pystr)
| JStr (s : pystr)
| JList (items : list json)
| JDict (fields : list (pystr * json)).
#[local] Set Elimination Schemes.

(** What [json.loads] does with a text: it returns a value, raises
    [JSONDecodeError] on a text that is not JSON, or raises another
    exception, such as [ValueError] on an integer past the digit limit of
    the interpreter and [RecursionError] on deep nesting. *)
Inductive parse_outcome :=
| Parsed (value : json)
| JSONDecodeError
| ParserRaises (e : exn).

Record KeySection := { title : pystr; content : pystr }.

Record SummaryRecord := {
  summary : pystr;
  document_length : Z;
  chunks_processed : Z;
  model_used : pystr;
  key_sections : list KeySection;
  key_information : option json
}.

(** A [dict] with [str] keys: the entries in insertion order. *)
Definition dict (V : Type) := list (pystr * V).

Fixpoint dict_set {V} (k : pystr) (v : V) (d : dict V) : dict V :=
  match d with
  | [] => [(k, v)]
  | (k', v') :: r =>
      if str_eqb k k' then (k', v) :: r else (k', v') :: dict_set k v r
  end.

Fixpoint dict_get {V} (k : pystr) (d : dict V) : option V :=
  match d with
  | [] => None
  | (k', v') :: r => if str_eqb k k' then Some v' else dict_get k r
  end.

(** The assignments [answers[question] = text] for the questions and the
    texts paired in order. *)
Definition assign_all (questions texts : list pystr) (answers : dict pystr)
  : dict pystr :=
  fold_left (fun d qt => dict_set (fst qt) (snd qt) d)
    (combine questions texts) answers.

Record t := {
  model : pystr;
  doc_processor : DocumentProcessor.t;
  max_chunk_size : Z
}.

(** [CohereCompassRAG.__init__], the [cohere] package being installed. *)
Definition init (llm : Config.LLMConfig) : exn + t :=
  match Config.cohere_api_key llm with
  | Some (_ :: _) =>
      inr {| model := Config.model_name llm;
             doc_processor := DocumentProcessor.init;
             max_chunk_size := 10000 |}
  | _ => inl (ValueError (lit "COHERE_API_KEY not set in environment variables"))
  end.

(** *** The chunker *)

Definition para_sep : pystr := [LF; LF].

(** One turn of the loop over the paragraphs, on [(chunks, current_chunk)]. *)
Definition chunk_step (chunk_size : Z) (st : list pystr * pystr) (para : pystr)
  : list pystr * pystr :=
  let '(chunks, current_chunk) := st in
  if len current_chunk + len para <? chunk_size
  then (chunks, current_chunk ++ para ++ para_sep)
  else
    ((if truthy current_chunk then chunks ++ [strip current_chunk] else chunks),
     para ++ para_sep).

(** [if chunk_size is None: chunk_size = self.max_chunk_size] *)
Definition chosen_chunk_size (self : t) (chunk_size : option Z) : Z :=
  match chunk_size with None => max_chunk_size self | Some n => n end.

(** [CohereCompassRAG._chunk_document] *)
Definition _chunk_document (self : t) (content : pystr) (chunk_size : option Z)
  : list pystr :=
  let chunk_size := chosen_chunk_size self chunk_size in
  let paragraphs := split content para_sep in
  let '(chunks, current_chunk) :=
    fold_left (chunk_step chunk_size) paragraphs ([], []) in
  if truthy current_chunk then chunks ++ [strip current_chunk] else chunks.

(** The paragraphs of a chunk as [current_chunk] holds them. *)
Definition group_text (g : list pystr) : pystr :=
  List.concat (List.map (fun para => para ++ para_sep) g).

(** The greedy grouping the chunker is meant to compute: [cur] is the group
    being filled; the next paragraph joins it while the text of the group
    and the paragraph stay below [chunk_size], otherwise the group is closed
    and the paragraph opens the next one. *)
Fixpoint greedy_groups (chunk_size : Z) (cur : list pystr) (paras : list pystr)
  : list (list pystr) :=
  match paras with
  | [] => match cur with [] => [] | _ => [cur] end
  | para :: rest =>
      if len (group_text cur) + len para <? chunk_size
      then greedy_groups chunk_size (cur ++ [para]) rest
      else
        match cur with
        | [] => greedy_groups chunk_size [para] rest
        | _ => cur :: greedy_groups chunk_size [para] rest
        end
  end.

(** Every paragraph after the first of a group joined it below the size. *)
Definition grown (chunk_size : Z) (g : list pystr) : Prop :=
  forall pre para post,
    g = pre ++ para :: post -> pre <> [] ->
    len (group_text pre) + len para < chunk_size.

(** The groups of paragraphs of a document. *)
Definition chunk_groups (self : t) (content : pystr) (chunk_size : option Z)
  : list (list pystr) :=
  greedy_groups (chosen_chunk_size self chunk_size) [] (split content para_sep).

(** The characters of a text that are no whitespace. *)
Definition visible (s : pystr) : pystr :=
  filter (fun c => negb (is_space c)) s.

(** *** The outline of a summary *)

Definition HASH : char := ch "#".

Record outline_state := {
  sections : list KeySection;
  current_section : option pystr;
  current_content : list pystr
}.

(** [if current_section: sections.append({...})] *)
Definition close_section (st : outline_state) : list KeySection :=
  match current_section st with
  | Some name =>
      if truthy name
      then sections st ++
           [{| title := name;
               content := strip (join [LF] (current_content st)) |}]
      else sections st
  | None => sections st
  end.

(** One turn of the loop over the lines. *)
Definition outline_step (st : outline_state) (line : pystr) : outline_state :=
  if startswith line [HASH]
  then {| sections := close_section st;
          current_section := Some (strip (lstrip_char HASH line));
          current_content := [] |}
  else if truthy (strip line)
  then {| sections := sections st;
          current_section := current_section st;
          current_content := current_content st ++ [line] |}
  else st.

(** [CohereCompassRAG._extract_key_sections] *)
Definition _extract_key_sections (summary_text : pystr) : list KeySection :=
  let lines := split summary_text [LF] in
  close_section
    (fold_left outline_step lines
       {| sections := []; current_section := None; current_content := [] |}).

(** The lines below a heading, up to the next heading. *)
Fixpoint body_lines (lines : list pystr) : list pystr :=
  match lines with
  | [] => []
  | l :: r => if startswith l [HASH] then [] else l :: body_lines r
  end.

Definition heading_title (line : pystr) : pystr := strip (lstrip_char HASH line).

(** The outline as the specification words it: one section per heading
    line, whose content joins the non-empty lines below it. *)
Fixpoint outline_as_stated (lines : list pystr) : list KeySection :=
  match lines with
  | [] => []
  | l :: r =>
      if startswith l [HASH]
      then {| title := heading_title l;
              content := join [LF] (filter truthy (body_lines r)) |}
           :: outline_as_stated r
      else outline_as_stated r
  end.

(** The outline the loop builds when no heading has an empty title: the
    lines that are blank once stripped are left out and the joined body is
    stripped. *)
Fixpoint outline_of (lines : list pystr) : list KeySection :=
  match lines with
  | [] => []
  | l :: r =>
      if startswith l [HASH]
      then {| title := heading_title l;
              content :=
                strip (join [LF]
                         (filter (fun x => truthy (strip x)) (body_lines r))) |}
           :: outline_of r
      else outline_of r
  end.

(** The section the loop holds open in [st], once the lines still to come
    are read. *)
Definition pending (st : outline_state) (lines : list pystr) : list KeySection :=
  match current_section st with
  | Some name =>
      if truthy name
      then [{| title := name;
               content :=
                 strip (join [LF]
                          (current_content st
                           ++ filter (fun x => truthy (strip x))
                                (body_lines lines))) |}]
      else []
  | None => []
  end.

Definition titled (k : KeySection) : bool := truthy (title k).

(** The two texts of the specification and two more. *)
Definition two_sections_text : pystr :=
  lit "# A" ++ [LF] ++ lit "body1" ++ [LF] ++ lit "# B" ++ [LF] ++ lit "body2".
Definition untitled_text : pystr := lit "#" ++ [LF] ++ lit "body".
Definition padded_text : pystr :=
  lit "# A" ++ [LF] ++ lit " body1 " ++ [LF] ++ lit " " ++ [LF] ++ lit "body2".

(** *** The prompts *)

Definition base_prompt : pystr := lit
"You are an expert AI assistant specialized in analyzing and summarizing complex technical documents, particularly model white papers for financial and risk management systems.

TASK: Generate a comprehensive, human-like summary of the following model white paper. The summary should be thorough, well-structured, and capture ALL important details without missing any critical information.

DOCUMENT CONTENT:
".

Definition detailed_instructions : pystr := lit
"
INSTRUCTIONS FOR SUMMARY:
1. **Executive Overview** (2-3 paragraphs): Provide a high-level overview of the model, its purpose, and key objectives
2. **Model Methodology** (detailed section): Explain the technical approach, algorithms, methodologies, and underlying assumptions
3. **Data Requirements** (detailed section): Describe all data sources, data quality requirements, preprocessing steps, and data lineage
4. **Key Features and Components** (detailed section): List and explain all important features, components, and modules of the model
5. **Performance Metrics** (detailed section): Document all performance measures, benchmarks, and evaluation criteria
6. **Risk Considerations** (detailed section): Identify and analyze all risk factors, limitations, and mitigation strategies
7. **Regulatory Compliance** (detailed section): Note any regulatory requirements, compliance aspects, and governance considerations
8. **Implementation Details** (detailed section): Cover deployment architecture, integration points, and operational considerations
9. **Conclusions and Recommendations** (1-2 paragraphs): Summarize key takeaways and any recommendations or next steps
10. **Technical Specifications** (detailed section): Include any technical parameters, configurations, or specifications mentioned

WRITING STYLE:
- Write in a professional, clear, and comprehensive manner
- Use appropriate technical terminology while remaining accessible
- Ensure the summary is self-contained and can be understood without reading the original
- Include specific numbers, metrics, and details where mentioned in the document
- Organize information logically and hierarchically
- Do NOT omit any important details - completeness is critical

FORMAT: Provide the summary in well-structured sections with clear headings and subheadings using markdown formatting.
".

Definition concise_instructions : pystr := lit
"
INSTRUCTIONS: Provide a concise but comprehensive summary covering the main points of the document.
".

(** [content[:50000] if len(content) > 50000 else content] *)
Definition summary_content (content : pystr) : pystr :=
  if len content >? 50000 then slice_to content 50000 else content.

(** [CohereCompassRAG._create_summary_prompt] *)
Definition _create_summary_prompt (content : pystr) (include_details : bool)
  : pystr :=
  let truncated_content := summary_content content in
  let prompt := base_prompt ++ [LF] ++ truncated_content ++ [LF; LF] in
  if include_details
  then prompt ++ detailed_instructions
  else prompt ++ concise_instructions.

Definition question_prompt_head : pystr := lit
"Based on the following document content, please answer the question comprehensively and accurately.

DOCUMENT CONTENT:
".

Definition question_prompt_tail : pystr := lit
"

Provide a detailed, accurate answer based on the document. If the information is not available in the document, state that clearly.
".

(** The f-string of [answer_questions]. *)
Definition question_prompt (document_content question : pystr) : pystr :=
  question_prompt_head ++ slice_to document_content 30000
  ++ [LF; LF] ++ lit "QUESTION: " ++ question ++ question_prompt_tail.

(** A text between double quotes. *)
Definition quoted (s : string) : pystr := [DQ] ++ lit s ++ [DQ].

Definition schema_text (key value : string) : pystr :=
  lit "    " ++ quoted key ++ lit ": " ++ quoted value.

Definition schema_list (key value : string) : pystr :=
  lit "    " ++ quoted key ++ lit ": [" ++ quoted value ++ lit "]".

(** The JSON example of the extraction prompt. *)
Definition extraction_schema : pystr :=
  lit "{" ++ [LF]
  ++ join (lit "," ++ [LF])
       [ schema_text "model_name" "Name of the model";
         schema_text "model_type" "Type/category of the model";
         schema_text "primary_objective" "Main objective or purpose";
         schema_text "methodology" "Brief description of methodology";
         schema_list "key_assumptions" "List of key assumptions";
         schema_list "data_sources" "List of data sources";
         schema_list "performance_metrics" "List of performance metrics";
         schema_list "key_limitations" "List of limitations";
         schema_list "risk_factors" "List of risk factors";
         schema_list "regulatory_considerations" "List of regulatory aspects";
         schema_list "implementation_requirements"
           "List of implementation requirements" ]
  ++ [LF] ++ lit "}".

Definition extraction_prompt_head : pystr :=
  lit "Based on the document content provided, extract the following key information in a structured JSON format:"
  ++ [LF; LF] ++ extraction_schema ++ [LF; LF]
  ++ lit "DOCUMENT CONTENT:" ++ [LF].

Definition extraction_prompt_tail : pystr :=
  [LF; LF] ++ lit "Provide the information in valid JSON format.".

(** The prompt of [extract_key_information]. *)
Definition extraction_prompt (document_content : pystr) : pystr :=
  extraction_prompt_head ++ slice_to document_content 30000
  ++ extraction_prompt_tail.

(** *** The methods that call the model *)

Section Methods.

(** [str.isalnum()] above ASCII, the files, the model and [json.loads]:
    the reply of the model may depend on every call made before. *)
Variable unicode_alnum : char -> bool.
Variable fs : pystr -> DocumentProcessor.file_view.
Variable model_reply : history -> ChatRequest -> exn + pystr.
Variable json_loads : pystr -> parse_outcome.
Variable llm : Config.LLMConfig.

(** [self.client.chat(...)] followed by [response.text] *)
Definition chat (req : ChatRequest) : io pystr :=
  fun h => (model_reply h req, h ++ [req]).

(** [CohereCompassRAG.process_white_paper]; the handler logs the error and
    raises it again. *)
Definition process_white_paper (self : t) (file_path : pystr) : io pystr :=
  let content :=
    DocumentProcessor.process_document unicode_alnum fs (doc_processor self)
      file_path in
  if negb (truthy content)
  then raise (ValueError (lit "Could not extract content from " ++ file_path))
  else ret content.

(** The call [generate_summary] makes. *)
Definition summary_request (self : t) (document_content : pystr)
    (include_details : bool) : ChatRequest :=
  {| req_model := model self;
     req_message := _create_summary_prompt document_content include_details;
     req_temperature := Config.temperature llm;
     req_max_tokens := Config.max_tokens llm |}.

(** [CohereCompassRAG.generate_summary] *)
Definition generate_summary (self : t) (document_content : pystr)
    (include_details : bool) : io SummaryRecord :=
  let chunks := _chunk_document self document_content None in
  summary_text <-
    chat (summary_request self document_content include_details) ;;
  ret {| summary := summary_text;
         document_length := len document_content;
         chunks_processed := Z.of_nat (List.length chunks);
         model_used := model self;
         key_sections := _extract_key_sections summary_text;
         key_information := None |}.

(** The call [answer_questions] makes for one question. *)
Definition question_request (self : t) (document_content question : pystr)
  : ChatRequest :=
  {| req_model := model self;
     req_message := question_prompt document_content question;
     req_temperature := (2 # 10)%Q;
     req_max_tokens := 2000 |}.

(** The loop of [answer_questions] over the questions that remain. *)
Fixpoint answer_loop (self : t) (document_content : pystr)
    (questions : list pystr) (answers : dict pystr) : io (dict pystr) :=
  match questions with
  | [] => ret answers
  | question :: rest =>
      text <- chat (question_request self document_content question) ;;
      answer_loop self document_content rest (dict_set question text answers)
  end.

(** [CohereCompassRAG.answer_questions] *)
Definition answer_questions (self : t) (document_content : pystr)
    (questions : list pystr) : io (dict pystr) :=
  answer_loop self document_content questions [].

(** The call [extract_key_information] makes. *)
Definition extraction_request (self : t) (document_content : pystr)
  : ChatRequest :=
  {| req_model := model self;
     req_message := extraction_prompt document_content;
     req_temperature := (1 # 10)%Q;
     req_max_tokens := 3000 |}.

(** [{"raw_response": response.text}] *)
Definition raw_fallback (text : pystr) : json :=
  JDict [(lit "raw_response", JStr text)].

(** [CohereCompassRAG.extract_key_information]: the inner handler catches
    [JSONDecodeError] only; what else [json.loads] raises reaches the outer
    handler, which logs it and raises it again. *)
Definition extract_key_information (self : t) (document_content : pystr)
  : io json :=
  text <- chat (extraction_request self document_content) ;;
  match json_loads text with
  | Parsed extracted_info => ret extracted_info
  | JSONDecodeError => ret (raw_fallback text)
  | ParserRaises e => raise e
  end.

(** The request of web_app.py: extract, summarize, then extract the key
    information when it is asked for. *)
Definition summarize_white_paper (self : t) (file_path : pystr)
    (include_detailed_analysis extract_key_info : bool) : io SummaryRecord :=
  document_content <- process_white_paper self file_path ;;
  summary_data <-
    generate_summary self document_content include_detailed_analysis ;;
  if extract_key_info
  then
    key_info <- extract_key_information self document_content ;;
    ret {| summary := summary summary_data;
           document_length := document_length summary_data;
           chunks_processed := chunks_processed summary_data;
           model_used := model_used summary_data;
           key_sections := key_sections summary_data;
           key_information := Some key_info |}
  else ret summary_data.

(** The model answers the calls [reqs], made in this order from the history
    [h] on, with [texts]. *)
Fixpoint replies_to (h : history) (reqs : list ChatRequest)
    (texts : list pystr) : Prop :=
  match reqs, texts with
  | [], [] => True
  | req :: reqs', text :: texts' =>
      model_reply h req = inr text /\ replies_to (h ++ [req]) reqs' texts'
  | _, _ => False
  end.

End Methods.

(** *** Stand-ins for runs *)

(** A model that gives the replies of a list, one for each call, and fails
    once the list is used up. *)
Definition canned_model (replies : list pystr)
  : history -> ChatRequest -> exn + pystr :=
  fun h _ =>
    match nth_error replies (List.length h) with
    | Some text => inr text
    | None => inl (ClientError (lit "no reply left"))
    end.

(** A parser that knows the empty object and nothing else. *)
Definition empty_object_loads (text : pystr) : parse_outcome :=
  if str_eqb text (lit "{}") then Parsed (JDict []) else JSONDecodeError.

(** The text of a JSON object with the one field [raw_response], and a
    number of 5,000 digits. *)
Definition raw_response_object_text : pystr :=
  lit "{" ++ quoted "raw_response" ++ lit ": " ++ quoted "hi" ++ lit "}".
Definition long_number_text : pystr := repeat (ch "1") (N.to_nat 5000).

(** [json.loads] on the texts of the runs: the empty object, [null], the
    object above, a number of more than 4,300 digits, which the interpreter
    refuses to convert, and prose. *)
Definition sample_loads (text : pystr) : parse_outcome :=
  if str_eqb text (lit "{}") then Parsed (JDict [])
  else if str_eqb text (lit "null") then Parsed JNull
  else if str_eqb text raw_response_object_text
  then Parsed (JDict [(lit "raw_response", JStr (lit "hi"))])
  else if forallb (between 49 57) text && (4300 <? len text)
  then ParserRaises
         (ValueError
            (lit "Exceeds the limit (4300 digits) for integer string conversion"))
  else JSONDecodeError.

(** The two shapes of the key information as the specification words them:
    a mapping of named fields, which the application tells from the
    fallback by the absence of the field [raw_response], and the mapping
    whose only field is [raw_response], holding the whole reply. *)
Definition structured_shape (info : json) : Prop :=
  exists fields,
    info = JDict fields /\ dict_get (lit "raw_response") fields = None.

Definition fallback_shape (text : pystr) (info : json) : Prop :=
  info = JDict [(lit "raw_response", JStr text)].

(** The extraction as the specification words it: on every reply of the
    model a value is returned, and it has one of the two shapes. *)
Definition key_information_as_stated
    (model_reply : history -> ChatRequest -> exn + pystr)
    (json_loads : pystr -> parse_outcome) (self : t)
    (document_content : pystr) (h : history) (text : pystr) : Prop :=
  exists info,
    fst (extract_key_information model_reply json_loads self
           document_content h) = inr info
    /\ (structured_shape info \/ fallback_shape text info).

(** Two files: a short paper and an empty one. *)
Definition sample_files (path : pystr) : DocumentProcessor.file_view :=
  if str_eqb path (lit "paper.txt")
  then {| DocumentProcessor.fv_exists := true;
          DocumentProcessor.fv_suffix := lit ".txt";
          DocumentProcessor.fv_extracted := Some (lit "Risk model.") |}
  else if str_eqb path (lit "empty.txt")
  then {| DocumentProcessor.fv_exists := true;
          DocumentProcessor.fv_suffix := lit ".txt";
          DocumentProcessor.fv_extracted := Some [] |}
  else {| DocumentProcessor.fv_exists := false;
          DocumentProcessor.fv_suffix := [];
          DocumentProcessor.fv_extracted := None |}.

Definition sample_llm : Config.LLMConfig :=
  Config.llm_defaults (Some (lit "key")) None.

Definition sample_rag : t :=
  {| model := Config.model_name sample_llm;
     doc_processor := DocumentProcessor.init;
     max_chunk_size := 10000 |}.

End CohereCompassRAG.

(** ** document_processor.py: the PDF reader and the content analysis *)

Module DocumentAnalysis.

(** [str(n)] for a page number *)
Definition str_of_nat (n : nat) : pystr :=
  lit (NilEmpty.string_of_uint (Nat.to_uint n)).

(** The loop of [_process_pdf] over the pages, from page index [page_num]
    on. A page is what [extract_text] returns for it, [None] when it
    raises; the result is [None] when a page that is read raises. *)
Fixpoint pdf_pages (page_num : nat) (pages : list (option pystr))
    (content : pystr) : option pystr :=
  match pages with
  | [] => Some content
  | page :: rest =>
      if (150 <=? page_num)%nat then Some content
      else
        match page with
        | None => None
        | Some page_text =>
            pdf_pages (S page_num) rest
              (if truthy page_text
               then content ++ [LF] ++ lit "--- Page "
                    ++ str_of_nat (page_num + 1) ++ lit " ---" ++ [LF]
                    ++ page_text
               else content)
        end
  end.

(** [DocumentProcessor._process_pdf]: [pypdf] tells whether the package is
    installed, [pdf] is the list of pages of the file, [None] when the file
    cannot be opened as a PDF. *)
Definition _process_pdf (unicode_alnum : char -> bool) (pypdf : bool)
    (self : DocumentProcessor.t) (pdf : option (list (option pystr)))
  : pystr :=
  if negb pypdf then []
  else
    match pdf with
    | None => []
    | Some pages =>
        match pdf_pages O pages [] with
        | Some content =>
            DocumentProcessor._clean_content unicode_alnum self content
        | None => []
        end
    end.

(** [sub in s] *)
Fixpoint contains (s sub : pystr) : bool :=
  startswith s sub
  || match s with [] => false | _ :: r => contains r sub end.

(** The loop [for keyword in keywords: if keyword in content_lower:
    found.append(keyword)]. *)
Fixpoint find_keywords (content_lower : pystr) (keywords found : list pystr)
  : list pystr :=
  match keywords with
  | [] => found
  | keyword :: rest =>
      find_keywords content_lower rest
        (if contains content_lower keyword then found ++ [keyword]
         else found)
  end.

Definition topic_keywords : list pystr :=
  [lit "model"; lit "validation"; lit "risk"; lit "compliance"; lit "data";
   lit "performance"; lit "assessment"; lit "review"; lit "testing";
   lit "documentation"; lit "governance"; lit "regulatory"; lit "business";
   lit "logic"; lit "assumptions"; lit "methodology"].

Definition risk_keywords : list pystr :=
  [lit "risk"; lit "uncertainty"; lit "volatility"; lit "exposure";
   lit "vulnerability"; lit "threat"; lit "hazard"; lit "danger";
   lit "instability"; lit "fluctuation"].

Definition compliance_keywords : list pystr :=
  [lit "compliance"; lit "regulation"; lit "regulatory"; lit "requirement";
   lit "standard"; lit "guideline"; lit "policy"; lit "procedure";
   lit "audit"; lit "oversight"].

Definition technical_terms : list pystr :=
  [lit "algorithm"; lit "methodology"; lit "framework"; lit "architecture";
   lit "implementation"; lit "parameter"; lit "calibration";
   lit "backtesting"; lit "stress testing"; lit "scenario";
   lit "monte carlo"; lit "simulation"; lit "optimization";
   lit "machine learning"; lit "AI"].

Section Keywords.

(** [str.lower] of the interpreter. *)
Variable str_lower : pystr -> pystr.

(** [DocumentProcessor._extract_key_topics] *)
Definition _extract_key_topics (content : pystr) : list pystr :=
  firstn 10 (find_keywords (str_lower content) topic_keywords []).

(** [DocumentProcessor._identify_risk_indicators] *)
Definition _identify_risk_indicators (content : pystr) : list pystr :=
  firstn 5 (find_keywords (str_lower content) risk_keywords []).

(** [DocumentProcessor._identify_compliance_keywords] *)
Definition _identify_compliance_keywords (content : pystr) : list pystr :=
  firstn 5 (find_keywords (str_lower content) compliance_keywords []).

(** [DocumentProcessor._identify_technical_terms] *)
Definition _identify_technical_terms (content : pystr) : list pystr :=
  firstn 8 (find_keywords (str_lower content) technical_terms []).

End Keywords.

(** [str.lower] on ASCII text. *)
Definition ascii_lower (s : pystr) : pystr :=
  List.map (fun c => if between 65 90 c then (c + 32)%N else c) s.

(** [DocumentProcessor._generate_content_summary] *)
Definition _generate_content_summary (content : pystr) : pystr :=
  if len content <? 200 then content
  else
    let sentences := split content [ch "."] in
    if (2 <=? List.length sentences)%nat
    then
      let summary :=
        strip (hd [] sentences) ++ lit ". " ++ strip (last sentences []) in
      if len summary >? 300 then slice_to summary 300 ++ lit "..."
      else summary
    else
      if len content >? 300 then slice_to content 300 ++ lit "..."
      else content.

End DocumentAnalysis.

(** * Properties *)

(** ** Strings *)

Section StringFacts.

Example split_three_newlines :
  split (lit "a" ++ [LF; LF; LF] ++ lit "b") [LF; LF]
  = [lit "a"; [LF] ++ lit "b"].
Proof. reflexivity. Qed.

Example split_trailing_separator :
  split (lit "a" ++ [LF; LF]) [LF; LF] = [lit "a"; []].
Proof. reflexivity. Qed.

Example split_empty : split [] [LF; LF] = [[]].
Proof. reflexivity. Qed.

Example strip_both_ends :
  strip ([LF; SP] ++ lit "a b" ++ [SP; LF]) = lit "a b".
Proof. reflexivity. Qed.

Lemma len_app (a b : pystr) : len (a ++ b) = len a + len b.
Proof. unfold len. rewrite length_app. lia. Qed.

Lemma len_nonneg (a : pystr) : 0 <= len a.
Proof. unfold len. lia. Qed.

Lemma slice_to_nonneg (s : pystr) (n : Z) :
  0 <= n -> slice_to s n = firstn (Z.to_nat n) s.
Proof.
  intros Hn. unfold slice_to.
  destruct (Z.ltb_spec n 0) as [Hneg|_]; [lia | reflexivity].
Qed.

Lemma len_firstn_le (s : pystr) (n : Z) :
  0 <= n <= len s -> len (firstn (Z.to_nat n) s) = n.
Proof.
  unfold len. intros Hn. rewrite length_firstn. lia.
Qed.

Lemma lstrip_app (x y : pystr) :
  lstrip (x ++ y) = match lstrip x with [] => lstrip y | r => r ++ y end.
Proof.
  induction x as [|a x IH]; simpl; [reflexivity|].
  destruct (is_space a); [exact IH | reflexivity].
Qed.

Lemma lstrip_no_leading_space (s : pystr) :
  starts_with_space s = false -> lstrip s = s.
Proof. destruct s as [|c r]; simpl; [reflexivity|]. intros ->. reflexivity. Qed.

Lemma starts_with_space_firstn (n : nat) (s : pystr) :
  starts_with_space s = false -> starts_with_space (firstn n s) = false.
Proof. destruct n, s; simpl; auto. Qed.

Lemma lstrip_length (s : pystr) : (List.length (lstrip s) <= List.length s)%nat.
Proof.
  induction s as [|c r IH]; simpl; [lia|].
  destruct (is_space c); simpl; lia.
Qed.

Lemma rstrip_length (s : pystr) : (List.length (rstrip s) <= List.length s)%nat.
Proof.
  induction s as [|c r IH]; simpl; [lia|].
  destruct (rstrip r); [destruct (is_space c)|]; simpl in *; lia.
Qed.

Lemma len_strip_le (s : pystr) : len (strip s) <= len s.
Proof.
  unfold len, strip.
  pose proof (rstrip_length (lstrip s)). pose proof (lstrip_length s). lia.
Qed.

Lemma rstrip_snoc_nonspace (l : pystr) (c : char) :
  is_space c = false -> rstrip (l ++ [c]) = l ++ [c].
Proof.
  intros Hc. induction l as [|a l IH]; simpl.
  - rewrite Hc. reflexivity.
  - rewrite IH. destruct (l ++ [c]) eqn:E; [|reflexivity].
    destruct l; discriminate.
Qed.

Lemma rstrip_all_space (ws : pystr) :
  forallb is_space ws = true -> rstrip ws = [].
Proof.
  induction ws as [|c r IH]; simpl; [reflexivity|].
  intros H. apply andb_prop in H as [Hc Hr].
  rewrite (IH Hr), Hc. reflexivity.
Qed.

Lemma lstrip_all_space (ws : pystr) :
  forallb is_space ws = true -> lstrip ws = [].
Proof.
  induction ws as [|c r IH]; simpl; [reflexivity|].
  intros H. apply andb_prop in H as [Hc Hr]. rewrite Hc. auto.
Qed.

Lemma rstrip_app_space (x ws : pystr) :
  forallb is_space ws = true -> rstrip (x ++ ws) = rstrip x.
Proof.
  intros H. induction x as [|a x IH]; simpl.
  - apply rstrip_all_space, H.
  - rewrite IH. reflexivity.
Qed.

(** Whitespace appended to a string is stripped with the rest. *)
Lemma strip_app_space (x ws : pystr) :
  forallb is_space ws = true -> strip (x ++ ws) = strip x.
Proof.
  intros H. unfold strip. rewrite lstrip_app.
  destruct (lstrip x) as [|c r] eqn:E.
  - rewrite (lstrip_all_space _ H). reflexivity.
  - apply rstrip_app_space, H.
Qed.

Lemma has_ws_run_cons (c : char) (s : pystr) :
  is_space c = false -> has_ws_run (c :: s) = has_ws_run s.
Proof. intros H. simpl. rewrite H. reflexivity. Qed.

Lemma rev'_rev (s : pystr) : rev' s = rev s.
Proof. unfold rev'. symmetry. apply rev_alt. Qed.

Lemma startswith_app (s p : pystr) :
  startswith s p = true -> exists rest, s = p ++ rest.
Proof.
  revert s. induction p as [|a p IH]; intros s H.
  - exists s. reflexivity.
  - destruct s as [|c s]; simpl in H; [discriminate|].
    apply andb_prop in H as [Hc Hs]. apply N.eqb_eq in Hc. subst c.
    destruct (IH s Hs) as [rest ->]. exists rest. reflexivity.
Qed.

(** Passing over [skip] characters is dropping them. *)
Lemma split_go_skip (sep s : pystr) :
  forall skip cur, split_go sep skip cur s = split_go sep O cur (skipn skip s).
Proof.
  induction s as [|c r IH]; intros skip cur.
  - destruct skip; reflexivity.
  - destruct skip as [|k]; [reflexivity|]. simpl. apply IH.
Qed.

Lemma split_go_nonempty (sep s : pystr) :
  forall skip cur, split_go sep skip cur s <> [].
Proof.
  induction s as [|c r IH]; intros skip cur; simpl; [discriminate|].
  destruct skip; [|apply IH].
  destruct (match sep with [] => true | a :: p' => (c =? a)%N && startswith r p' end);
    [discriminate | apply IH].
Qed.

Lemma join_cons (sep p : pystr) (rest : list pystr) :
  rest <> [] -> join sep (p :: rest) = p ++ sep ++ join sep rest.
Proof. destruct rest; [congruence | reflexivity]. Qed.

(** Joining the pieces of a split with the separator gives the text back. *)
Lemma join_split_go (sep : pystr) (n : nat) :
  sep <> [] ->
  forall s cur, (List.length s <= n)%nat ->
    join sep (split_go sep O cur s) = rev cur ++ s.
Proof.
  intros Hsep. induction n as [|n IH]; intros s cur Hn.
  - destruct s; [|simpl in Hn; lia]. simpl.
    rewrite rev'_rev, app_nil_r. reflexivity.
  - destruct s as [|c r].
    + simpl. rewrite rev'_rev, app_nil_r. reflexivity.
    + cbn [split_go]. destruct (startswith (c :: r) sep) eqn:Hs.
      * destruct (startswith_app _ _ Hs) as [rest Hrest].
        destruct sep as [|a sep']; [congruence|].
        injection Hrest as Hc Hr. subst a r.
        rewrite split_go_skip.
        change (Nat.pred (List.length (c :: sep'))) with (List.length sep').
        rewrite skipn_app, skipn_all, Nat.sub_diag. cbn [skipn app].
        rewrite join_cons by apply split_go_nonempty.
        rewrite IH.
        -- rewrite rev'_rev. reflexivity.
        -- simpl in Hn. rewrite length_app in Hn. lia.
      * rewrite IH by (simpl in Hn; lia).
        simpl. rewrite <- app_assoc. reflexivity.
Qed.

Lemma join_split (s sep : pystr) : sep <> [] -> join sep (split s sep) = s.
Proof.
  intros Hsep. unfold split.
  apply (join_split_go sep (List.length s) Hsep s []). lia.
Qed.

Lemma split_nonempty (s sep : pystr) : split s sep <> [].
Proof. apply split_go_nonempty. Qed.

Lemma len_join_member (sep p : pystr) (parts : list pystr) :
  In p parts -> len p <= len (join sep parts).
Proof.
  induction parts as [|x rest IH]; intros Hin; [destruct Hin|].
  destruct rest as [|y rest'].
  - destruct Hin as [->|[]]. simpl. lia.
  - rewrite join_cons by discriminate. rewrite !len_app.
    pose proof (len_nonneg x). pose proof (len_nonneg sep).
    pose proof (len_nonneg (join sep (y :: rest'))).
    destruct Hin as [->|Hin]; [lia|]. specialize (IH Hin). lia.
Qed.

End StringFacts.

(** ** The normalizer *)

Section NormalizerFacts.

Import DocumentProcessor.

Variable unicode_alnum : char -> bool.

Lemma truncation_marker_len : len truncation_marker = 23.
Proof. reflexivity. Qed.

(** The marker begins and ends with a character that is no whitespace, so
    stripping keeps it whole. *)
Lemma strip_app_marker (x : pystr) :
  strip (x ++ truncation_marker) = lstrip x ++ truncation_marker.
Proof.
  unfold strip. rewrite lstrip_app.
  assert (Hm : truncation_marker
               = removelast truncation_marker ++ [ch "]"]) by reflexivity.
  destruct (lstrip x) as [|c r].
  - reflexivity.
  - rewrite Hm, app_assoc. apply rstrip_snoc_nonspace. reflexivity.
Qed.

Lemma clean_content_unfold (self : t) (raw : pystr) :
  raw <> [] \/ 0 <= max_content_length self ->
  _clean_content unicode_alnum self raw =
  strip (if len (cleaned unicode_alnum raw) >? max_content_length self
         then slice_to (cleaned unicode_alnum raw) (max_content_length self)
              ++ truncation_marker
         else cleaned unicode_alnum raw).
Proof.
  intros H. unfold _clean_content. destruct raw as [|c r]; [|reflexivity].
  destruct H as [H|H]; [congruence|].
  change (cleaned unicode_alnum []) with (@nil char). change (len []) with 0.
  destruct (Z.gtb_spec 0 (max_content_length self)); [lia | reflexivity].
Qed.

Lemma clean_content_long (self : t) (raw : pystr) :
  0 <= max_content_length self ->
  max_content_length self < len (cleaned unicode_alnum raw) ->
  _clean_content unicode_alnum self raw
  = lstrip (firstn (Z.to_nat (max_content_length self)) (cleaned unicode_alnum raw))
    ++ truncation_marker.
Proof.
  intros H0 Hlong. rewrite clean_content_unfold by (right; exact H0).
  destruct (Z.gtb_spec (len (cleaned unicode_alnum raw)) (max_content_length self)); [|lia].
  rewrite slice_to_nonneg by assumption. apply strip_app_marker.
Qed.

Lemma clean_content_short (self : t) (raw : pystr) :
  len (cleaned unicode_alnum raw) <= max_content_length self ->
  _clean_content unicode_alnum self raw = strip (cleaned unicode_alnum raw).
Proof.
  intros Hshort. rewrite clean_content_unfold
    by (destruct raw; [right; exact Hshort | left; discriminate]).
  destruct (Z.gtb_spec (len (cleaned unicode_alnum raw)) (max_content_length self)); [lia|].
  reflexivity.
Qed.

Lemma sub_ws_collapsed (s : pystr) :
  forall in_run,
    has_ws_run (sub_ws in_run s) = false
    /\ (in_run = true -> starts_with_space (sub_ws in_run s) = false).
Proof.
  induction s as [|c r IH]; intros in_run; simpl; [auto|].
  destruct (is_space c) eqn:Hc.
  - destruct (IH true) as [Hrun Hstart]. destruct in_run.
    + auto.
    + split; [|discriminate]. simpl.
      rewrite Hstart by reflexivity. rewrite Hrun. reflexivity.
  - destruct (IH false) as [Hrun _]. split.
    + rewrite has_ws_run_cons; assumption.
    + intros _. simpl. exact Hc.
Qed.

(** A text made of one safe character that is no whitespace is left as it
    is by both substitutions. *)
Lemma sub_ws_repeat (a : char) (n : nat) (in_run : bool) :
  is_space a = false -> sub_ws in_run (repeat a n) = repeat a n.
Proof.
  intros Ha. revert in_run.
  induction n as [|n IH]; intros in_run; simpl; [reflexivity|].
  rewrite Ha, IH. reflexivity.
Qed.

Lemma sub_unsafe_repeat (a : char) (n : nat) :
  is_safe unicode_alnum a = true ->
  sub_unsafe unicode_alnum (repeat a n) = repeat a n.
Proof.
  intros Ha. unfold sub_unsafe.
  induction n as [|n IH]; simpl; [reflexivity|].
  rewrite Ha, IH. reflexivity.
Qed.

Lemma cleaned_long_text : cleaned unicode_alnum long_text = long_text.
Proof.
  unfold cleaned, long_text.
  rewrite sub_ws_repeat by reflexivity.
  apply sub_unsafe_repeat. reflexivity.
Qed.

Lemma cleaned_spaced_long_text :
  cleaned unicode_alnum spaced_long_text = spaced_long_text.
Proof.
  unfold cleaned, spaced_long_text, long_text.
  change (sub_ws false (SP :: repeat (ch "a") (N.to_nat 500001)))
    with (SP :: sub_ws true (repeat (ch "a") (N.to_nat 500001))).
  rewrite sub_ws_repeat by reflexivity.
  unfold sub_unsafe.
  change (filter (is_safe unicode_alnum)
            (SP :: repeat (ch "a") (N.to_nat 500001)))
    with (SP :: sub_unsafe unicode_alnum (repeat (ch "a") (N.to_nat 500001))).
  rewrite sub_unsafe_repeat by reflexivity. reflexivity.
Qed.

Lemma len_long_text : len long_text = 500001.
Proof. unfold len, long_text. rewrite repeat_length. lia. Qed.

Lemma long_text_no_leading_space : starts_with_space long_text = false.
Proof.
  unfold long_text. destruct (N.to_nat 500001); reflexivity.
Qed.

Lemma clean_content_exact (self : t) (raw : pystr) :
  0 <= max_content_length self ->
  max_content_length self < len (cleaned unicode_alnum raw) ->
  starts_with_space (cleaned unicode_alnum raw) = false ->
  _clean_content unicode_alnum self raw
  = firstn (Z.to_nat (max_content_length self)) (cleaned unicode_alnum raw)
    ++ truncation_marker
  /\ len (_clean_content unicode_alnum self raw)
     = max_content_length self + 23.
Proof.
  intros H0 Hlong Hstart.
  pose proof (clean_content_long self raw H0 Hlong) as Hout.
  rewrite lstrip_no_leading_space in Hout
    by (apply starts_with_space_firstn, Hstart).
  split; [exact Hout|].
  rewrite Hout, len_app, truncation_marker_len, len_firstn_le; lia.
Qed.

(** After a leading space the stripped result is one character short. *)
Lemma len_clean_content_leading_space (self : t) (s : pystr) :
  cleaned unicode_alnum (SP :: s) = SP :: s ->
  starts_with_space s = false ->
  0 < max_content_length self <= len s ->
  len (_clean_content unicode_alnum self (SP :: s))
  = max_content_length self - 1 + 23.
Proof.
  intros Hc Hs Hmax.
  rewrite clean_content_long; rewrite ?Hc;
    try (unfold len in *; rewrite ?length_cons; lia).
  replace (Z.to_nat (max_content_length self))
    with (S (Z.to_nat (max_content_length self - 1))) by lia.
  change (lstrip (firstn (S (Z.to_nat (max_content_length self - 1))) (SP :: s)))
    with (lstrip (firstn (Z.to_nat (max_content_length self - 1)) s)).
  rewrite lstrip_no_leading_space by (apply starts_with_space_firstn, Hs).
  rewrite len_app, truncation_marker_len, len_firstn_le; lia.
Qed.

(** The default processor on the second text. *)
Lemma len_clean_spaced_long_text :
  len (_clean_content unicode_alnum init spaced_long_text) = 500022.
Proof.
  unfold spaced_long_text.
  rewrite len_clean_content_leading_space.
  - reflexivity.
  - apply cleaned_spaced_long_text.
  - apply long_text_no_leading_space.
  - rewrite len_long_text. unfold init, max_content_length. lia.
Qed.

(** C1, as amended. When the cleaned content is longer than the configured
    maximum, the normalizer returns its first [max_content_length]
    characters without their leading whitespace, followed by the marker
    [... [Content truncated]] of 23 characters; when the cleaned content
    does not begin with whitespace this is the whole prefix and the result
    is 23 characters longer than the maximum. When the cleaned content is
    at or under the maximum, the result is the cleaned content stripped at
    both ends, with nothing appended. *)
Theorem clean_content_truncation (self : t) (raw : pystr) :
  0 <= max_content_length self ->
  (max_content_length self < len (cleaned unicode_alnum raw) ->
   _clean_content unicode_alnum self raw
   = lstrip (firstn (Z.to_nat (max_content_length self))
               (cleaned unicode_alnum raw))
     ++ truncation_marker
   /\ (starts_with_space (cleaned unicode_alnum raw) = false ->
       _clean_content unicode_alnum self raw
       = firstn (Z.to_nat (max_content_length self))
           (cleaned unicode_alnum raw)
         ++ truncation_marker
       /\ len (_clean_content unicode_alnum self raw)
          = max_content_length self + 23))
  /\ (len (cleaned unicode_alnum raw) <= max_content_length self ->
      _clean_content unicode_alnum self raw
      = strip (cleaned unicode_alnum raw)).
Proof.
  intros H0. split.
  - intros Hlong. split; [exact (clean_content_long self raw H0 Hlong)|].
    intros Hstart. exact (clean_content_exact self raw H0 Hlong Hstart).
  - apply clean_content_short.
Qed.

(** C7. The substitution of the whitespace runs leaves no two whitespace
    characters in a row, but the characters removed after it bring the
    spaces around them together: [a @ b] comes out with two spaces. *)
Theorem clean_content_keeps_space_run :
  (forall raw, has_ws_run (sub_ws false raw) = false)
  /\ _clean_content unicode_alnum init (lit "a @ b") = lit "a  b"
  /\ has_ws_run (_clean_content unicode_alnum init (lit "a @ b")) = true.
Proof.
  split; [intros raw; apply sub_ws_collapsed|].
  split; vm_compute; reflexivity.
Qed.

End NormalizerFacts.

Lemma clean_content_truncation_witness :
  0 <= DocumentProcessor.max_content_length DocumentProcessor.init
  /\ DocumentProcessor._clean_content DocumentProcessor.ascii_only
       DocumentProcessor.init DocumentProcessor.long_text
     = firstn (Z.to_nat 500000) DocumentProcessor.long_text
       ++ DocumentProcessor.truncation_marker
  /\ len (DocumentProcessor._clean_content DocumentProcessor.ascii_only
            DocumentProcessor.init DocumentProcessor.long_text)
     = 500023.
Proof.
  assert (H0 : 0 <= DocumentProcessor.max_content_length DocumentProcessor.init)
    by (unfold DocumentProcessor.init, DocumentProcessor.max_content_length; lia).
  split; [exact H0|].
  destruct (clean_content_truncation DocumentProcessor.ascii_only
              DocumentProcessor.init DocumentProcessor.long_text H0)
    as [Hlong _].
  rewrite cleaned_long_text in Hlong.
  destruct Hlong as [_ Hexact].
  - rewrite len_long_text.
    unfold DocumentProcessor.init, DocumentProcessor.max_content_length. lia.
  - exact (Hexact (long_text_no_leading_space)).
Defined.

(** C1, as the claim words it, fails on the default processor: on 500,001
    letters the result is 23 and not 19 characters longer than the maximum,
    the marker being [... [Content truncated]]; and after a leading space
    the result does not keep the first 500,000 characters, whichever of the
    two markers is meant. *)
Lemma truncation_as_stated_fails :
  (DocumentProcessor.max_content_length DocumentProcessor.init
   < len (DocumentProcessor.cleaned DocumentProcessor.ascii_only
            DocumentProcessor.long_text)
   /\ ~ DocumentProcessor.truncated_as_stated (lit "[Content truncated]")
         DocumentProcessor.ascii_only DocumentProcessor.init
         DocumentProcessor.long_text)
  /\ (DocumentProcessor.max_content_length DocumentProcessor.init
      < len (DocumentProcessor.cleaned DocumentProcessor.ascii_only
               DocumentProcessor.spaced_long_text)
      /\ ~ DocumentProcessor.truncated_as_stated
            DocumentProcessor.truncation_marker
            DocumentProcessor.ascii_only DocumentProcessor.init
            DocumentProcessor.spaced_long_text
      /\ ~ DocumentProcessor.truncated_as_stated (lit "[Content truncated]")
            DocumentProcessor.ascii_only DocumentProcessor.init
            DocumentProcessor.spaced_long_text).
Proof.
  assert (Hmax : DocumentProcessor.max_content_length DocumentProcessor.init
                 = 500000) by reflexivity.
  assert (H19 : len (lit "[Content truncated]") = 19) by reflexivity.
  rewrite cleaned_long_text, cleaned_spaced_long_text, Hmax.
  pose proof len_long_text as Hl.
  split; [split | split; [|split]].
  - lia.
  - intros [_ Hlen]. rewrite Hmax, H19 in Hlen.
    assert (Hexact :
              len (DocumentProcessor._clean_content DocumentProcessor.ascii_only
                     DocumentProcessor.init DocumentProcessor.long_text)
              = DocumentProcessor.max_content_length DocumentProcessor.init
                + 23).
    { apply clean_content_exact; rewrite ?cleaned_long_text, ?Hmax.
      - lia.
      - lia.
      - apply long_text_no_leading_space. }
    rewrite Hmax in Hexact. lia.
  - unfold DocumentProcessor.spaced_long_text, len. rewrite length_cons.
    unfold len in Hl. lia.
  - intros [_ Hlen].
    rewrite len_clean_spaced_long_text, Hmax, truncation_marker_len in Hlen.
    lia.
  - intros [_ Hlen].
    rewrite len_clean_spaced_long_text, Hmax, H19 in Hlen. lia.
Qed.

(** ** The chunker *)

Section ChunkerFacts.

Import CohereCompassRAG.

(** Six paragraphs and a chunk size of 6: no two of them fit together, and
    the paragraph of ten letters is a chunk of its own. *)
Example chunk_document_small :
  _chunk_document sample_rag
    (join para_sep
       [lit "aaa"; lit "bb"; lit "cccccccccc"; lit "d"; lit "e" ++ [LF; SP];
        lit "f"])
    (Some 6)
  = [lit "aaa"; lit "bb"; lit "cccccccccc"; lit "d"; lit "e"; lit "f"].
Proof. reflexivity. Qed.

(** With the default size the same text is one chunk. *)
Example chunk_document_default :
  _chunk_document sample_rag
    (join para_sep [lit "aaa"; lit "bb"; lit "f"]) None
  = [join para_sep [lit "aaa"; lit "bb"; lit "f"]].
Proof. reflexivity. Qed.

Lemma para_sep_space : forallb is_space para_sep = true.
Proof. reflexivity. Qed.

Lemma group_text_snoc (g : list pystr) (para : pystr) :
  group_text (g ++ [para]) = group_text g ++ para ++ para_sep.
Proof.
  unfold group_text. rewrite map_app, concat_app. simpl.
  rewrite app_nil_r. reflexivity.
Qed.

Lemma group_text_one (para : pystr) : group_text [para] = para ++ para_sep.
Proof. apply (group_text_snoc [] para). Qed.

Lemma truthy_group_text (g : list pystr) :
  truthy (group_text g) = match g with [] => false | _ :: _ => true end.
Proof.
  destruct g as [|p r]; [reflexivity|].
  unfold group_text. simpl. destruct p; reflexivity.
Qed.

(** A group in [current_chunk] is its paragraphs joined, and one more
    separator. *)
Lemma group_text_join (g : list pystr) :
  g <> [] -> group_text g = join para_sep g ++ para_sep.
Proof.
  induction g as [|p r IH]; [congruence|]. intros _.
  destruct r as [|q r'].
  - apply group_text_one.
  - rewrite join_cons by discriminate.
    change (group_text (p :: q :: r'))
      with ((p ++ para_sep) ++ group_text (q :: r')).
    rewrite IH by discriminate. rewrite <- !app_assoc. reflexivity.
Qed.

Lemma join_snoc (g : list pystr) (para : pystr) :
  join para_sep (g ++ [para]) = group_text g ++ para.
Proof.
  induction g as [|p r IH]; [reflexivity|].
  change ((p :: r) ++ [para]) with (p :: (r ++ [para])).
  rewrite join_cons by (destruct r; discriminate).
  rewrite IH.
  change (group_text (p :: r)) with ((p ++ para_sep) ++ group_text r).
  rewrite <- !app_assoc. reflexivity.
Qed.

Lemma strip_group_text (g : list pystr) :
  g <> [] -> strip (group_text g) = strip (join para_sep g).
Proof.
  intros Hg. rewrite group_text_join by assumption.
  apply strip_app_space, para_sep_space.
Qed.

(** The loop of the chunker closes the groups of [greedy_groups], one chunk
    for each. *)
Lemma fold_chunk_step (cs : Z) (paras : list pystr) :
  forall chunks cur,
    (let '(chunks', current') :=
       fold_left (chunk_step cs) paras (chunks, group_text cur) in
     if truthy current' then chunks' ++ [strip current'] else chunks')
    = chunks ++ List.map (fun g => strip (group_text g))
                  (greedy_groups cs cur paras).
Proof.
  induction paras as [|para rest IH]; intros chunks cur.
  - simpl. rewrite truthy_group_text.
    destruct cur; [rewrite app_nil_r|]; reflexivity.
  - cbn [fold_left greedy_groups]. unfold chunk_step at 2.
    destruct (len (group_text cur) + len para <? cs).
    + rewrite <- group_text_snoc. apply IH.
    + rewrite <- group_text_one, IH, truthy_group_text.
      destruct cur; [reflexivity|].
      rewrite <- app_assoc. reflexivity.
Qed.

Lemma greedy_groups_concat (cs : Z) (paras : list pystr) :
  forall cur, List.concat (greedy_groups cs cur paras) = cur ++ paras.
Proof.
  induction paras as [|para rest IH]; intros cur; simpl.
  - destruct cur; simpl; rewrite ?app_nil_r; reflexivity.
  - destruct (len (group_text cur) + len para <? cs).
    + rewrite IH, <- app_assoc. reflexivity.
    + destruct cur as [|c cur']; [apply IH|].
      cbn [List.concat]. rewrite IH. reflexivity.
Qed.

Lemma greedy_groups_nonempty (cs : Z) (paras : list pystr) :
  forall cur, Forall (fun g => g <> []) (greedy_groups cs cur paras).
Proof.
  induction paras as [|para rest IH]; intros cur; simpl.
  - destruct cur; constructor; [discriminate | constructor].
  - destruct (len (group_text cur) + len para <? cs); [apply IH|].
    destruct cur; [apply IH|]. constructor; [discriminate | apply IH].
Qed.

(** A group that is being filled is the beginning of the first group. *)
Lemma greedy_groups_head (cs : Z) (paras : list pystr) :
  forall cur, cur <> [] ->
    exists more rest, greedy_groups cs cur paras = (cur ++ more) :: rest.
Proof.
  induction paras as [|para rest IH]; intros cur Hcur; simpl.
  - destruct cur; [congruence|]. exists [], []. rewrite app_nil_r. reflexivity.
  - destruct (len (group_text cur) + len para <? cs).
    + destruct (IH (cur ++ [para])) as (more & tl & ->).
      { destruct cur; discriminate. }
      exists (para :: more), tl. rewrite <- app_assoc. reflexivity.
    + destruct cur; [congruence|].
      exists [], (greedy_groups cs [para] rest).
      rewrite app_nil_r. reflexivity.
Qed.

Lemma grown_snoc (cs : Z) (cur : list pystr) (para : pystr) :
  grown cs cur -> len (group_text cur) + len para < cs ->
  grown cs (cur ++ [para]).
Proof.
  intros Hcur Hfit pre p post Heq Hpre.
  destruct post as [|x post' _] using rev_ind.
  - apply app_inj_tail in Heq as [-> ->]. exact Hfit.
  - change (pre ++ p :: post' ++ [x]) with (pre ++ (p :: post') ++ [x]) in Heq.
    rewrite app_assoc in Heq. apply app_inj_tail in Heq as [-> _].
    apply (Hcur pre p post'); [reflexivity | assumption].
Qed.

Lemma grown_one (cs : Z) (para : pystr) : grown cs [para].
Proof.
  intros pre p post Heq Hpre.
  destruct pre as [|x pre']; [congruence|].
  destruct pre'; discriminate.
Qed.

Lemma grown_nil (cs : Z) : grown cs [].
Proof. intros pre p post Heq _. destruct pre; discriminate. Qed.

Lemma greedy_groups_grown (cs : Z) (paras : list pystr) :
  forall cur, grown cs cur -> Forall (grown cs) (greedy_groups cs cur paras).
Proof.
  induction paras as [|para rest IH]; intros cur Hcur; simpl.
  - destruct cur; constructor; [assumption | constructor].
  - destruct (Z.ltb_spec (len (group_text cur) + len para) cs) as [Hfit|Hfull].
    + apply IH, grown_snoc; assumption.
    + destruct cur; [apply IH, grown_one|].
      constructor; [assumption | apply IH, grown_one].
Qed.

(** A group was closed only when the next paragraph did not fit. *)
Lemma greedy_groups_closed (cs : Z) (paras : list pystr) :
  forall cur before g para g' after,
    greedy_groups cs cur paras = before ++ g :: (para :: g') :: after ->
    cs <= len (group_text g) + len para.
Proof.
  induction paras as [|p rest IH]; intros cur before g para g' after Heq.
  - simpl in Heq. destruct cur, before as [|? [|? ?]]; discriminate.
  - simpl in Heq.
    destruct (Z.ltb_spec (len (group_text cur) + len p) cs) as [Hfit|Hfull].
    + exact (IH _ _ _ _ _ _ Heq).
    + destruct cur as [|c cur']; [exact (IH _ _ _ _ _ _ Heq)|].
      destruct before as [|b before'].
      * injection Heq as Hg Htl. subst g.
        destruct (greedy_groups_head cs rest [p]) as (more & tl & Hhd);
          [discriminate|].
        rewrite Hhd in Htl. injection Htl as Hpara _ _. subst para.
        exact Hfull.
      * injection Heq as _ Htl. exact (IH _ _ _ _ _ _ Htl).
Qed.

(** A group of two paragraphs or more is shorter than the size. *)
Lemma grown_small (cs : Z) (g : list pystr) :
  grown cs g -> (2 <= List.length g)%nat -> len (join para_sep g) < cs.
Proof.
  intros Hg Hlen.
  destruct g as [|x g' _] using rev_ind; [simpl in Hlen; lia|].
  rewrite join_snoc, len_app.
  apply (Hg g' x []); [reflexivity|].
  destruct g'; [simpl in Hlen; lia | discriminate].
Qed.

Lemma chunk_document_groups (self : t) (content : pystr) (chunk_size : option Z) :
  _chunk_document self content chunk_size
  = List.map (fun g => strip (join para_sep g))
      (chunk_groups self content chunk_size).
Proof.
  unfold _chunk_document, chunk_groups.
  etransitivity;
    [exact (fold_chunk_step (chosen_chunk_size self chunk_size)
              (split content para_sep) [] [])|].
  cbn [app]. apply map_ext_in. intros g Hg. apply strip_group_text.
  pose proof (greedy_groups_nonempty (chosen_chunk_size self chunk_size)
                (split content para_sep) []) as Hne.
  rewrite Forall_forall in Hne. exact (Hne g Hg).
Qed.

Lemma chunk_groups_concat (self : t) (content : pystr) (chunk_size : option Z) :
  List.concat (chunk_groups self content chunk_size) = split content para_sep.
Proof. apply greedy_groups_concat. Qed.

Lemma visible_app (a b : pystr) : visible (a ++ b) = visible a ++ visible b.
Proof. apply filter_app. Qed.

Lemma visible_all_space (ws : pystr) :
  forallb is_space ws = true -> visible ws = [].
Proof.
  induction ws as [|c r IH]; simpl; [reflexivity|].
  intros H. apply andb_prop in H as [Hc Hr].
  unfold visible in *. simpl. rewrite Hc. simpl. auto.
Qed.

Lemma visible_cons (c : char) (s : pystr) :
  visible (c :: s) = if is_space c then visible s else c :: visible s.
Proof. unfold visible. simpl. destruct (is_space c); reflexivity. Qed.

Lemma visible_lstrip (s : pystr) : visible (lstrip s) = visible s.
Proof.
  induction s as [|c r IH]; [reflexivity|].
  rewrite visible_cons. simpl. destruct (is_space c) eqn:Hc; [exact IH|].
  rewrite visible_cons, Hc. reflexivity.
Qed.

Lemma visible_rstrip (s : pystr) : visible (rstrip s) = visible s.
Proof.
  induction s as [|c r IH]; [reflexivity|].
  rewrite visible_cons, <- IH. simpl.
  destruct (rstrip r) as [|x r'].
  - destruct (is_space c) eqn:Hc; [reflexivity|].
    rewrite visible_cons, Hc. reflexivity.
  - rewrite (visible_cons c). reflexivity.
Qed.

Lemma visible_strip (s : pystr) : visible (strip s) = visible s.
Proof. unfold strip. rewrite visible_rstrip. apply visible_lstrip. Qed.

Lemma visible_join (sep : pystr) (parts : list pystr) :
  forallb is_space sep = true ->
  visible (join sep parts) = List.concat (List.map visible parts).
Proof.
  intros Hsep. induction parts as [|p rest IH]; [reflexivity|].
  destruct rest as [|q rest'].
  - simpl. rewrite app_nil_r. reflexivity.
  - rewrite join_cons by discriminate.
    rewrite !visible_app, (visible_all_space _ Hsep), IH. reflexivity.
Qed.

(** Stripping the chunks and joining them again moves whitespace only. *)
Lemma visible_chunks (groups : list (list pystr)) :
  visible (join para_sep
             (List.map (fun g => strip (join para_sep g)) groups))
  = visible (join para_sep (List.concat groups)).
Proof.
  rewrite !visible_join by apply para_sep_space.
  induction groups as [|g rest IH]; [reflexivity|].
  cbn [List.map List.concat]. rewrite map_app, concat_app, IH.
  rewrite visible_strip, visible_join by apply para_sep_space.
  reflexivity.
Qed.

(** C3. The chunks are the paragraphs of the text, in their order and
    none left out, gathered in groups that are not empty; a chunk is the
    paragraphs of its group joined by the separator and stripped at both
    ends. The paragraphs joined again are the text, and the chunks joined
    again differ from the text by whitespace only. *)
Theorem chunk_document_round_trip (self : t) (content : pystr)
    (chunk_size : option Z) :
  _chunk_document self content chunk_size
  = List.map (fun g => strip (join para_sep g))
      (chunk_groups self content chunk_size)
  /\ Forall (fun g => g <> []) (chunk_groups self content chunk_size)
  /\ List.concat (chunk_groups self content chunk_size)
     = split content para_sep
  /\ join para_sep (List.concat (chunk_groups self content chunk_size))
     = content
  /\ visible (join para_sep (_chunk_document self content chunk_size))
     = visible content.
Proof.
  split; [apply chunk_document_groups|].
  split; [apply greedy_groups_nonempty|].
  split; [apply chunk_groups_concat|].
  assert (Hjoin : join para_sep
                    (List.concat (chunk_groups self content chunk_size))
                  = content).
  { rewrite chunk_groups_concat. apply join_split. discriminate. }
  split; [exact Hjoin|].
  rewrite chunk_document_groups, visible_chunks, Hjoin. reflexivity.
Qed.

(** The groups behind the chunks, for the chunk size in effect. *)
Lemma chunk_groups_greedy (self : t) (content : pystr)
    (chunk_size : option Z) :
  (_chunk_document self content chunk_size
   = List.map (fun g => strip (join para_sep g))
       (chunk_groups self content chunk_size)
   /\ List.concat (chunk_groups self content chunk_size)
      = split content para_sep)
  /\ (forall g pre para post,
        In g (chunk_groups self content chunk_size) ->
        g = pre ++ para :: post -> pre <> [] ->
        len (group_text pre) + len para < chosen_chunk_size self chunk_size)
  /\ (forall before g para g' after,
        chunk_groups self content chunk_size
        = before ++ g :: (para :: g') :: after ->
        chosen_chunk_size self chunk_size <= len (group_text g) + len para)
  /\ (forall c,
        In c (_chunk_document self content chunk_size) ->
        len c < chosen_chunk_size self chunk_size
        \/ exists para,
             In [para] (chunk_groups self content chunk_size)
             /\ c = strip para
             /\ chosen_chunk_size self chunk_size <= len para)
  /\ (forall g para,
        In g (chunk_groups self content chunk_size) -> In para g ->
        chosen_chunk_size self chunk_size <= len para -> g = [para]).
Proof.
  pose proof (greedy_groups_grown (chosen_chunk_size self chunk_size)
                (split content para_sep) [] (grown_nil _)) as Hgrown.
  fold (chunk_groups self content chunk_size) in Hgrown.
  rewrite Forall_forall in Hgrown.
  pose proof (greedy_groups_nonempty (chosen_chunk_size self chunk_size)
                (split content para_sep) []) as Hne.
  fold (chunk_groups self content chunk_size) in Hne.
  rewrite Forall_forall in Hne.
  assert (Hsingle : forall g para,
             In g (chunk_groups self content chunk_size) -> In para g ->
             chosen_chunk_size self chunk_size <= len para -> g = [para]).
  { intros g para Hg Hin Hbig.
    destruct g as [|x [|y g']].
    - destruct Hin.
    - destruct Hin as [->|[]]. reflexivity.
    - pose proof (grown_small _ _ (Hgrown _ Hg)) as Hsmall.
      pose proof (len_join_member para_sep _ _ Hin).
      simpl List.length in Hsmall. lia. }
  split; [split; [apply chunk_document_groups | apply chunk_groups_concat]|].
  split; [intros g pre para post Hg; apply (Hgrown g Hg)|].
  split; [intros before g para g' after; apply greedy_groups_closed|].
  split; [|exact Hsingle].
  intros c Hc. rewrite chunk_document_groups in Hc.
  apply in_map_iff in Hc as (g & <- & Hg).
  destruct g as [|x [|y g']].
  - destruct (Hne _ Hg). reflexivity.
  - destruct (Z.lt_ge_cases (len x) (chosen_chunk_size self chunk_size))
      as [Hlt|Hge].
    + left. simpl. pose proof (len_strip_le x). lia.
    + right. exists x. auto.
  - left. pose proof (grown_small _ _ (Hgrown _ Hg)) as Hsmall.
    pose proof (len_strip_le (join para_sep (x :: y :: g'))).
    simpl List.length in Hsmall. lia.
Qed.

(** C4. For a chunk size [n] given by the caller, the groups behind the
    chunks are the greedy ones for [n]: a paragraph joins the group being
    filled exactly when the text of the group, its separators included, and
    the paragraph stay below [n], and a group is closed exactly when the
    next paragraph does not fit. Hence a chunk is shorter than [n] unless
    it is one paragraph, kept whole, that is itself at least [n] long; and
    such a paragraph is always alone in its group. Without a size from the
    caller the chunker works as with [max_chunk_size]. *)
Theorem chunk_document_greedy (self : t) (content : pystr) (n : Z) :
  (_chunk_document self content (Some n)
   = List.map (fun g => strip (join para_sep g))
       (greedy_groups n [] (split content para_sep))
   /\ List.concat (greedy_groups n [] (split content para_sep))
      = split content para_sep)
  /\ (forall g pre para post,
        In g (greedy_groups n [] (split content para_sep)) ->
        g = pre ++ para :: post -> pre <> [] ->
        len (group_text pre) + len para < n)
  /\ (forall before g para g' after,
        greedy_groups n [] (split content para_sep)
        = before ++ g :: (para :: g') :: after ->
        n <= len (group_text g) + len para)
  /\ (forall c,
        In c (_chunk_document self content (Some n)) ->
        len c < n
        \/ exists para,
             In [para] (greedy_groups n [] (split content para_sep))
             /\ c = strip para
             /\ n <= len para)
  /\ (forall g para,
        In g (greedy_groups n [] (split content para_sep)) -> In para g ->
        n <= len para -> g = [para])
  /\ _chunk_document self content None
     = _chunk_document self content (Some (max_chunk_size self)).
Proof.
  destruct (chunk_groups_greedy self content (Some n))
    as (Hchunks & Hgrown & Hclosed & Hsize & Hsingle).
  split; [exact Hchunks|]. split; [exact Hgrown|].
  split; [exact Hclosed|]. split; [exact Hsize|].
  split; [exact Hsingle | reflexivity].
Qed.

End ChunkerFacts.

(** ** The outline *)

Section OutlineFacts.

Import CohereCompassRAG.

(** What the loop over the lines has built when it ends. *)
Lemma outline_fold (lines : list pystr) :
  forall st,
    close_section (fold_left outline_step lines st)
    = sections st ++ pending st lines ++ filter titled (outline_of lines).
Proof.
  induction lines as [|l r IH]; intros st.
  - unfold close_section, pending. simpl.
    destruct (current_section st) as [name|]; [destruct (truthy name)|];
      rewrite ?app_nil_r; reflexivity.
  - cbn [fold_left]. rewrite IH. unfold outline_step, pending, close_section.
    cbn [outline_of body_lines].
    destruct (startswith l [HASH]) eqn:Hh.
    + cbn [sections current_section current_content filter app].
      unfold titled at 2. cbn [title]. fold (heading_title l).
      rewrite app_nil_r.
      destruct (current_section st) as [name|];
        [destruct (truthy name)|];
        destruct (truthy (heading_title l));
        rewrite ?app_nil_r, <- ?app_assoc; reflexivity.
    + cbn [filter]. destruct (truthy (strip l)) eqn:Hb.
      * cbn [sections current_section current_content].
        destruct (current_section st) as [name|]; [destruct (truthy name)|];
          rewrite <- ?app_assoc; reflexivity.
      * reflexivity.
Qed.

Lemma extract_key_sections_titled (summary_text : pystr) :
  _extract_key_sections summary_text
  = filter titled (outline_of (split summary_text [LF])).
Proof. unfold _extract_key_sections. rewrite outline_fold. reflexivity. Qed.

Lemma outline_of_titled (lines : list pystr) :
  (forall line, In line lines -> startswith line [HASH] = true ->
                heading_title line <> []) ->
  filter titled (outline_of lines) = outline_of lines.
Proof.
  induction lines as [|l r IH]; intros H; [reflexivity|].
  cbn [outline_of]. destruct (startswith l [HASH]) eqn:Hh.
  - cbn [filter]. unfold titled at 1. cbn [title].
    destruct (heading_title l) eqn:Ht.
    + destruct (H l (or_introl eq_refl) Hh). exact Ht.
    + cbn [truthy]. rewrite IH; [reflexivity|].
      intros line Hin. apply H. right. exact Hin.
  - apply IH. intros line Hin. apply H. right. exact Hin.
Qed.

Lemma outline_of_no_heading (lines : list pystr) :
  (forall line, In line lines -> startswith line [HASH] = false) ->
  outline_of lines = [].
Proof.
  induction lines as [|l r IH]; intros H; [reflexivity|].
  cbn [outline_of]. rewrite (H l (or_introl eq_refl)).
  apply IH. intros line Hin. apply H. right. exact Hin.
Qed.

(** C5, as amended. When every line that begins with the marker has a
    title left once the markers and the surrounding whitespace are removed,
    the outline has one section for each of these lines, in their order,
    with that title; its content is the lines below the heading and above
    the next one that are not blank, joined by newlines and stripped at
    both ends. A text with no heading has an empty outline, and the text of
    the specification has its two sections. *)
Theorem extract_key_sections_outline :
  (forall summary_text,
      (forall line, In line (split summary_text [LF]) ->
                    startswith line [HASH] = true -> heading_title line <> []) ->
      _extract_key_sections summary_text
      = outline_of (split summary_text [LF]))
  /\ (forall summary_text,
        (forall line, In line (split summary_text [LF]) ->
                      startswith line [HASH] = false) ->
        _extract_key_sections summary_text = [])
  /\ _extract_key_sections two_sections_text
     = [ {| title := lit "A"; content := lit "body1" |};
         {| title := lit "B"; content := lit "body2" |} ].
Proof.
  split; [|split].
  - intros summary_text H.
    rewrite extract_key_sections_titled. apply outline_of_titled, H.
  - intros summary_text H.
    rewrite extract_key_sections_titled, outline_of_no_heading by exact H.
    reflexivity.
  - vm_compute. reflexivity.
Qed.

End OutlineFacts.

Lemma extract_key_sections_outline_witness :
  CohereCompassRAG._extract_key_sections CohereCompassRAG.two_sections_text
  = CohereCompassRAG.outline_of
      (split CohereCompassRAG.two_sections_text [LF])
  /\ CohereCompassRAG._extract_key_sections (lit "no heading here") = [].
Proof.
  destruct extract_key_sections_outline as (Htitled & Hnone & _).
  split.
  - apply Htitled. intros line Hin Hh.
    vm_compute in Hin.
    destruct Hin as [<-|[<-|[<-|[<-|[]]]]]; vm_compute in Hh |- *;
      discriminate.
  - apply Hnone. intros line Hin.
    vm_compute in Hin. destruct Hin as [<-|[]]. reflexivity.
Defined.

(** C5, as the claim words it, fails: a heading without a title gets no
    section, and the content is not the plain join of the lines that are
    not empty, since blank lines are left out and the result is stripped. *)
Lemma outline_as_stated_fails :
  (CohereCompassRAG._extract_key_sections CohereCompassRAG.untitled_text = []
   /\ CohereCompassRAG.outline_as_stated
        (split CohereCompassRAG.untitled_text [LF])
      = [ {| CohereCompassRAG.title := [];
             CohereCompassRAG.content := lit "body" |} ])
  /\ CohereCompassRAG._extract_key_sections CohereCompassRAG.padded_text
     <> CohereCompassRAG.outline_as_stated
          (split CohereCompassRAG.padded_text [LF]).
Proof.
  split; [split; vm_compute; reflexivity|].
  vm_compute. discriminate.
Qed.

(** ** The prompts *)

Section PromptFacts.

Import CohereCompassRAG.

(** A slice up to a limit is the first characters, as many as the limit or
    all of them. *)
Lemma slice_to_min (s : pystr) (n : Z) :
  0 <= n -> slice_to s n = firstn (Z.to_nat (Z.min (len s) n)) s.
Proof.
  intros Hn. rewrite slice_to_nonneg by assumption.
  destruct (Z.le_gt_cases (len s) n) as [Hle|Hgt].
  - rewrite Z.min_l by assumption. unfold len in *.
    rewrite Nat2Z.id, firstn_all. apply firstn_all2. lia.
  - rewrite Z.min_r by lia. reflexivity.
Qed.

Lemma summary_content_min (content : pystr) :
  summary_content content
  = firstn (Z.to_nat (Z.min (len content) 50000)) content.
Proof.
  unfold summary_content.
  destruct (Z.gtb_spec (len content) 50000) as [Hgt|Hle].
  - apply slice_to_min. lia.
  - rewrite Z.min_l by assumption. unfold len.
    rewrite Nat2Z.id, firstn_all. reflexivity.
Qed.

Lemma len_firstn_min (s : pystr) (n : Z) :
  0 <= n -> len (firstn (Z.to_nat (Z.min (len s) n)) s) = Z.min (len s) n.
Proof.
  intros Hn. apply len_firstn_le. pose proof (len_nonneg s). lia.
Qed.

(** C8. The summary prompt holds the first min(length, 50,000) characters
    of the content between its fixed head and the instructions; the
    extraction prompt and every question prompt hold the first
    min(length, 30,000) characters. What is held is a prefix of the content
    and has exactly that length. *)
Theorem prompt_content_limits (content : pystr) :
  (forall include_details,
      _create_summary_prompt content include_details
      = base_prompt ++ [LF]
        ++ firstn (Z.to_nat (Z.min (len content) 50000)) content ++ [LF; LF]
        ++ (if include_details then detailed_instructions
            else concise_instructions))
  /\ extraction_prompt content
     = extraction_prompt_head
       ++ firstn (Z.to_nat (Z.min (len content) 30000)) content
       ++ extraction_prompt_tail
  /\ (forall question,
        question_prompt content question
        = question_prompt_head
          ++ firstn (Z.to_nat (Z.min (len content) 30000)) content
          ++ [LF; LF] ++ lit "QUESTION: " ++ question ++ question_prompt_tail)
  /\ (forall limit, 0 <= limit ->
        (exists rest,
            content
            = firstn (Z.to_nat (Z.min (len content) limit)) content ++ rest)
        /\ len (firstn (Z.to_nat (Z.min (len content) limit)) content)
           = Z.min (len content) limit
        /\ len (firstn (Z.to_nat (Z.min (len content) limit)) content)
           <= limit).
Proof.
  split; [|split; [|split]].
  - intros include_details. unfold _create_summary_prompt.
    rewrite summary_content_min.
    destruct include_details; rewrite <- !app_assoc; reflexivity.
  - unfold extraction_prompt. rewrite slice_to_min by lia. reflexivity.
  - intros question. unfold question_prompt.
    rewrite slice_to_min by lia. reflexivity.
  - intros limit Hlimit. split; [|split].
    + exists (skipn (Z.to_nat (Z.min (len content) limit)) content).
      symmetry. apply firstn_skipn.
    + apply len_firstn_min, Hlimit.
    + rewrite len_firstn_min by assumption. lia.
Qed.

End PromptFacts.

(** ** The methods that call the model *)

Section MethodFacts.

Import CohereCompassRAG.

Variable unicode_alnum : char -> bool.
Variable fs : pystr -> DocumentProcessor.file_view.
Variable model_reply : history -> ChatRequest -> exn + pystr.
Variable json_loads : pystr -> parse_outcome.
Variable llm : Config.LLMConfig.

Lemma str_eqb_eq (a b : pystr) : str_eqb a b = true <-> a = b.
Proof.
  revert b. induction a as [|x a IH]; intros [|y b]; simpl;
    try (split; [discriminate | congruence]); [split; reflexivity|].
  rewrite andb_true_iff, N.eqb_eq, IH. split.
  - intros [-> ->]. reflexivity.
  - intros H. injection H as -> ->. auto.
Qed.

Lemma str_eqb_refl (a : pystr) : str_eqb a a = true.
Proof. apply str_eqb_eq. reflexivity. Qed.

(** Reading a key after an assignment. *)
Lemma dict_get_set {V} (q k : pystr) (v : V) (d : dict V) :
  dict_get q (dict_set k v d)
  = if str_eqb q k then Some v else dict_get q d.
Proof.
  induction d as [|[k' v'] r IH]; simpl.
  - reflexivity.
  - destruct (str_eqb k k') eqn:Hk; simpl.
    + apply str_eqb_eq in Hk. subst k'.
      destruct (str_eqb q k); reflexivity.
    + rewrite IH. destruct (str_eqb q k') eqn:Hq; [|reflexivity].
      destruct (str_eqb q k) eqn:Hqk; [|reflexivity].
      apply str_eqb_eq in Hq, Hqk. subst.
      rewrite str_eqb_refl in Hk. discriminate.
Qed.

Lemma assign_all_keeps (q : pystr) (questions texts : list pystr) :
  forall answers,
    dict_get q answers <> None ->
    dict_get q (assign_all questions texts answers) <> None.
Proof.
  unfold assign_all. revert texts.
  induction questions as [|k rest IH]; intros texts answers H;
    [exact H|].
  destruct texts as [|t texts']; [exact H|]. simpl. apply IH.
  rewrite dict_get_set. destruct (str_eqb q k); [discriminate | exact H].
Qed.

Lemma assign_all_has (q : pystr) (questions : list pystr) :
  forall texts answers,
    List.length texts = List.length questions -> In q questions ->
    dict_get q (assign_all questions texts answers) <> None.
Proof.
  induction questions as [|k rest IH]; intros texts answers Hlen Hin;
    [destruct Hin|].
  destruct texts as [|t texts']; [discriminate|].
  injection Hlen as Hlen.
  change (assign_all (k :: rest) (t :: texts') answers)
    with (assign_all rest texts' (dict_set k t answers)).
  destruct (str_eqb q k) eqn:Hqk.
  - apply assign_all_keeps. rewrite dict_get_set, Hqk. discriminate.
  - destruct Hin as [->|Hin]; [rewrite str_eqb_refl in Hqk; discriminate|].
    apply IH; assumption.
Qed.

(** Assigning a key that is not in the mapping adds the entry at the end. *)
Lemma dict_set_fresh {V} (k : pystr) (v : V) (d : dict V) :
  ~ In k (List.map fst d) -> dict_set k v d = d ++ [(k, v)].
Proof.
  induction d as [|[k' v'] r IH]; intros Hk; [reflexivity|]. simpl.
  destruct (str_eqb k k') eqn:Heq.
  - apply str_eqb_eq in Heq. subst k'. destruct Hk. left. reflexivity.
  - rewrite IH; [reflexivity|]. intros Hin. apply Hk. right. exact Hin.
Qed.

Lemma assign_all_distinct (questions : list pystr) :
  forall texts answers,
    NoDup questions ->
    (forall q, In q questions -> ~ In q (List.map fst answers)) ->
    assign_all questions texts answers = answers ++ combine questions texts.
Proof.
  induction questions as [|k rest IH]; intros texts answers Hnd Hfresh.
  - unfold assign_all. simpl. rewrite app_nil_r. reflexivity.
  - destruct texts as [|t texts'].
    + unfold assign_all. simpl. rewrite app_nil_r. reflexivity.
    + change (assign_all (k :: rest) (t :: texts') answers)
        with (assign_all rest texts' (dict_set k t answers)).
      inversion Hnd as [|? ? Hk Hrest]; subst.
      rewrite dict_set_fresh by (apply Hfresh; left; reflexivity).
      rewrite IH; [rewrite <- app_assoc; reflexivity | assumption |].
      intros q Hq. rewrite map_app, in_app_iff. intros [Hin|[<-|[]]].
      * apply (Hfresh q); [right; exact Hq | exact Hin].
      * exact (Hk Hq).
Qed.

Lemma replies_to_length (reqs : list ChatRequest) :
  forall h texts,
    replies_to model_reply h reqs texts ->
    List.length texts = List.length reqs.
Proof.
  induction reqs as [|req rest IH]; intros h [|t texts] H; simpl in *;
    try (destruct H; fail); [reflexivity|].
  destruct H as [_ H]. f_equal. exact (IH _ _ H).
Qed.

(** The loop when the model answers every call. *)
Lemma answer_loop_replies (self : t) (document_content : pystr)
    (questions : list pystr) :
  forall texts answers h,
    replies_to model_reply h
      (List.map (question_request self document_content) questions) texts ->
    answer_loop model_reply self document_content questions answers h
    = (inr (assign_all questions texts answers),
       h ++ List.map (question_request self document_content) questions).
Proof.
  induction questions as [|q rest IH]; intros texts answers h H.
  - destruct texts; [|destruct H]. simpl. rewrite app_nil_r. reflexivity.
  - destruct texts as [|t texts']; [destruct H|]. destruct H as [Hq Hrest].
    cbn [answer_loop]. unfold bind, chat. rewrite Hq.
    rewrite (IH _ _ _ Hrest). cbn [List.map].
    rewrite <- app_assoc. reflexivity.
Qed.

(** The calls of the loop are those of the first questions, in order,
    whatever the model does. *)
Lemma answer_loop_calls (self : t) (document_content : pystr)
    (questions : list pystr) :
  forall answers h,
    exists k,
      snd (answer_loop model_reply self document_content questions answers h)
      = h ++ List.map (question_request self document_content)
               (firstn k questions).
Proof.
  induction questions as [|q rest IH]; intros answers h.
  - exists O. simpl. rewrite app_nil_r. reflexivity.
  - cbn [answer_loop]. unfold bind, chat.
    destruct (model_reply h (question_request self document_content q))
      as [e|text].
    + exists 1%nat. reflexivity.
    + destruct (IH (dict_set q text answers)
                  (h ++ [question_request self document_content q]))
        as [k Hk].
      exists (S k). rewrite Hk. cbn [firstn List.map].
      rewrite <- app_assoc. reflexivity.
Qed.

(** C9. With no question the method returns the empty mapping and calls
    nothing. When the model answers, the calls are those of the questions,
    one for each and in their order, and the mapping returned holds the
    answers assigned in that order, with an entry for every question; when
    no question comes twice, these are the questions paired with their
    answers, in order.
    Whatever the model does, the calls made are those of the first
    questions, in order. *)
Theorem answer_questions_in_order (self : t) (document_content : pystr)
    (questions : list pystr) (h : history) :
  answer_questions model_reply self document_content [] h = (inr [], h)
  /\ (forall texts,
        replies_to model_reply h
          (List.map (question_request self document_content) questions)
          texts ->
        answer_questions model_reply self document_content questions h
        = (inr (assign_all questions texts []),
           h ++ List.map (question_request self document_content) questions)
        /\ (forall q, In q questions ->
              exists a, dict_get q (assign_all questions texts []) = Some a)
        /\ (NoDup questions ->
            assign_all questions texts [] = combine questions texts))
  /\ (exists k,
        snd (answer_questions model_reply self document_content questions h)
        = h ++ List.map (question_request self document_content)
                 (firstn k questions)).
Proof.
  split; [reflexivity|]. split.
  - intros texts H. split; [|split].
    + apply answer_loop_replies, H.
    + intros q Hq.
      pose proof (assign_all_has q questions texts []) as Hhas.
      rewrite (replies_to_length _ _ _ H), length_map in Hhas.
      specialize (Hhas eq_refl Hq).
      destruct (dict_get q (assign_all questions texts [])) as [a|];
        [exists a; reflexivity | congruence].
    + intros Hnd. apply (assign_all_distinct questions texts [] Hnd).
      intros q _ Hin. exact Hin.
  - apply answer_loop_calls.
Qed.

(** C2, as amended. When the model replies with a text that [json.loads]
    parses, the method returns the parsed value as it is, whatever its
    shape; when [json.loads] raises [JSONDecodeError], it returns the
    mapping whose only field is [raw_response], holding the whole text.
    One call is made in both cases. *)
Theorem extract_key_information_parse (self : t) (document_content : pystr)
    (h : history) (text : pystr) :
  model_reply h (extraction_request self document_content) = inr text ->
  (forall parsed,
      json_loads text = Parsed parsed ->
      extract_key_information model_reply json_loads self document_content h
      = (inr parsed, h ++ [extraction_request self document_content]))
  /\ (json_loads text = JSONDecodeError ->
      extract_key_information model_reply json_loads self document_content h
      = (inr (JDict [(lit "raw_response", JStr text)]),
         h ++ [extraction_request self document_content])).
Proof.
  intros Hreply. unfold extract_key_information, bind, chat.
  rewrite Hreply. split.
  - intros parsed Hparse. rewrite Hparse. reflexivity.
  - intros Hparse. rewrite Hparse. reflexivity.
Qed.

Lemma truthy_false (s : pystr) : truthy s = false <-> s = [].
Proof. destruct s; simpl; split; congruence. Qed.

(** C6. The method raises if and only if the extraction gave the empty
    text, and the error says which file could not be read; otherwise it
    returns the text as it is. On the empty text the request ends there:
    the model is not called. *)
Theorem process_white_paper_empty_fatal (self : t) (file_path : pystr)
    (h : history) :
  (DocumentProcessor.process_document unicode_alnum fs (doc_processor self)
     file_path = [] ->
   process_white_paper unicode_alnum fs self file_path h
   = (inl (ValueError (lit "Could not extract content from " ++ file_path)),
      h)
   /\ forall include_details extract_key_info,
       summarize_white_paper unicode_alnum fs model_reply json_loads llm
         self file_path include_details extract_key_info h
       = (inl (ValueError
                 (lit "Could not extract content from " ++ file_path)), h))
  /\ (DocumentProcessor.process_document unicode_alnum fs (doc_processor self)
        file_path <> [] ->
      process_white_paper unicode_alnum fs self file_path h
      = (inr (DocumentProcessor.process_document unicode_alnum fs
                (doc_processor self) file_path), h))
  /\ ((exists e,
         fst (process_white_paper unicode_alnum fs self file_path h) = inl e)
      <-> DocumentProcessor.process_document unicode_alnum fs
            (doc_processor self) file_path = []).
Proof.
  unfold summarize_white_paper, bind, process_white_paper.
  destruct (DocumentProcessor.process_document unicode_alnum fs
              (doc_processor self) file_path) as [|c r] eqn:Hc.
  - split; [|split].
    + intros _. split; reflexivity.
    + congruence.
    + split; [reflexivity|]. intros _. eexists. reflexivity.
  - split; [|split].
    + discriminate.
    + intros _. reflexivity.
    + split; [|discriminate]. intros [e He]. discriminate He.
Qed.

Lemma chunk_document_nonempty (self : t) (content : pystr)
    (chunk_size : option Z) :
  _chunk_document self content chunk_size <> [].
Proof.
  rewrite chunk_document_groups. intros Hmap.
  apply map_eq_nil in Hmap.
  pose proof (chunk_groups_concat self content chunk_size) as Hc.
  rewrite Hmap in Hc. simpl in Hc.
  symmetry in Hc. exact (split_nonempty _ _ Hc).
Qed.

(** C10. The chunker never returns the empty list, the empty text gives
    the one chunk that is the empty string, and a summary record counts one
    chunk at least: the record is returned whenever the model replies, and
    its count is the number of chunks of the document. *)
Theorem chunk_document_never_empty (self : t) :
  (forall content chunk_size, _chunk_document self content chunk_size <> [])
  /\ (forall chunk_size, _chunk_document self [] chunk_size = [[]])
  /\ (forall document_content include_details h text,
        model_reply h (summary_request llm self document_content
                         include_details) = inr text ->
        exists record,
          generate_summary model_reply llm self document_content
            include_details h
          = (inr record,
             h ++ [summary_request llm self document_content include_details])
          /\ chunks_processed record
             = Z.of_nat (List.length
                           (_chunk_document self document_content None))
          /\ 1 <= chunks_processed record)
  /\ (forall document_content include_details h record h',
        generate_summary model_reply llm self document_content
          include_details h = (inr record, h') ->
        1 <= chunks_processed record).
Proof.
  assert (Hcount : forall content,
             1 <= Z.of_nat (List.length (_chunk_document self content None))).
  { intros content. pose proof (chunk_document_nonempty self content None).
    destruct (_chunk_document self content None); [congruence|].
    simpl List.length. lia. }
  split; [intros; apply chunk_document_nonempty|].
  split; [|split].
  - intros chunk_size. unfold _chunk_document. simpl.
    destruct (len (rev' []) <? chosen_chunk_size self chunk_size);
      reflexivity.
  - intros document_content include_details h text Hreply.
    unfold generate_summary, bind, chat. rewrite Hreply.
    eexists. split; [reflexivity|]. split; [reflexivity|]. apply Hcount.
  - intros document_content include_details h record h'.
    unfold generate_summary, bind, chat.
    destruct (model_reply h _); [discriminate|].
    intros H. injection H as <- _. apply Hcount.
Qed.

End MethodFacts.

(** ** Runs on the stand-ins *)

Lemma extract_key_information_parse_witness :
  CohereCompassRAG.extract_key_information
    (CohereCompassRAG.canned_model [lit "{}"])
    CohereCompassRAG.sample_loads CohereCompassRAG.sample_rag
    (lit "Risk model.") []
  = (inr (CohereCompassRAG.JDict []),
     [CohereCompassRAG.extraction_request CohereCompassRAG.sample_rag
        (lit "Risk model.")])
  /\ CohereCompassRAG.extract_key_information
       (CohereCompassRAG.canned_model [lit "The paper describes a model."])
       CohereCompassRAG.sample_loads CohereCompassRAG.sample_rag
       (lit "Risk model.") []
     = (inr (CohereCompassRAG.JDict
               [(lit "raw_response",
                 CohereCompassRAG.JStr (lit "The paper describes a model."))]),
        [CohereCompassRAG.extraction_request CohereCompassRAG.sample_rag
           (lit "Risk model.")]).
Proof.
  split.
  - destruct (extract_key_information_parse
                (CohereCompassRAG.canned_model [lit "{}"])
                CohereCompassRAG.sample_loads
                CohereCompassRAG.sample_rag (lit "Risk model.") []
                (lit "{}") eq_refl)
      as (Hparsed & _).
    exact (Hparsed (CohereCompassRAG.JDict []) eq_refl).
  - destruct (extract_key_information_parse
                (CohereCompassRAG.canned_model
                   [lit "The paper describes a model."])
                CohereCompassRAG.sample_loads
                CohereCompassRAG.sample_rag (lit "Risk model.") []
                (lit "The paper describes a model.") eq_refl)
      as (_ & Hraw).
    exact (Hraw eq_refl).
Defined.

(** C2, as the claim words it, fails. The reply [null] parses, and the
    value returned is no mapping; the reply that is an object with a
    [raw_response] field parses, and the value returned has the field of
    the fallback without holding the reply. On a number of 5,000 digits
    [json.loads] raises [ValueError], which the handler of
    [JSONDecodeError] does not catch: the method raises. *)
Lemma key_information_as_stated_fails :
  ~ CohereCompassRAG.key_information_as_stated
      (CohereCompassRAG.canned_model [lit "null"])
      CohereCompassRAG.sample_loads CohereCompassRAG.sample_rag
      (lit "Risk model.") [] (lit "null")
  /\ ~ CohereCompassRAG.key_information_as_stated
        (CohereCompassRAG.canned_model
           [CohereCompassRAG.raw_response_object_text])
        CohereCompassRAG.sample_loads CohereCompassRAG.sample_rag
        (lit "Risk model.") [] CohereCompassRAG.raw_response_object_text
  /\ ~ CohereCompassRAG.key_information_as_stated
        (CohereCompassRAG.canned_model [CohereCompassRAG.long_number_text])
        CohereCompassRAG.sample_loads CohereCompassRAG.sample_rag
        (lit "Risk model.") [] CohereCompassRAG.long_number_text.
Proof.
  split; [|split].
  - intros (info & Hrun & Hshape).
    assert (Hnull : info = CohereCompassRAG.JNull).
    { vm_compute in Hrun. congruence. }
    subst info. destruct Hshape as [(fields & Hf & _)|Hf]; discriminate Hf.
  - intros (info & Hrun & Hshape).
    assert (Hobj : info = CohereCompassRAG.JDict
                            [(lit "raw_response",
                              CohereCompassRAG.JStr (lit "hi"))]).
    { vm_compute in Hrun. vm_compute. congruence. }
    subst info. destruct Hshape as [(fields & Hf & Hkey)|Hf].
    + injection Hf as <-. vm_compute in Hkey. discriminate Hkey.
    + vm_compute in Hf. discriminate Hf.
  - intros (info & Hrun & _). vm_compute in Hrun. discriminate Hrun.
Qed.

Lemma chunk_document_greedy_witness :
  CohereCompassRAG._chunk_document CohereCompassRAG.sample_rag
    (join CohereCompassRAG.para_sep
       [lit "aaa"; lit "bb"; lit "cccccccccc"; lit "d"; lit "e"; lit "f"])
    (Some 6)
  = [lit "aaa"; lit "bb"; lit "cccccccccc";
     lit "d" ++ [LF; LF] ++ lit "e"; lit "f"]
  /\ CohereCompassRAG._chunk_document CohereCompassRAG.sample_rag
       (join CohereCompassRAG.para_sep
          [lit "aaa"; lit "bb"; lit "cccccccccc"; lit "d"; lit "e"; lit "f"])
       (Some 60)
     = [join CohereCompassRAG.para_sep
          [lit "aaa"; lit "bb"; lit "cccccccccc"; lit "d"; lit "e"; lit "f"]].
Proof.
  split.
  - destruct (chunk_document_greedy CohereCompassRAG.sample_rag
                (join CohereCompassRAG.para_sep
                   [lit "aaa"; lit "bb"; lit "cccccccccc"; lit "d"; lit "e";
                    lit "f"]) 6) as ((Hchunks & _) & _).
    rewrite Hchunks. vm_compute. reflexivity.
  - destruct (chunk_document_greedy CohereCompassRAG.sample_rag
                (join CohereCompassRAG.para_sep
                   [lit "aaa"; lit "bb"; lit "cccccccccc"; lit "d"; lit "e";
                    lit "f"]) 60) as ((Hchunks & _) & _).
    rewrite Hchunks. vm_compute. reflexivity.
Defined.

Lemma answer_questions_in_order_witness :
  CohereCompassRAG.answer_questions
    (CohereCompassRAG.canned_model [lit "A credit model."; lit "Loan data."])
    CohereCompassRAG.sample_rag (lit "Risk model.")
    [lit "What is it?"; lit "Which data?"] []
  = (inr [(lit "What is it?", lit "A credit model.");
          (lit "Which data?", lit "Loan data.")],
     [CohereCompassRAG.question_request CohereCompassRAG.sample_rag
        (lit "Risk model.") (lit "What is it?");
      CohereCompassRAG.question_request CohereCompassRAG.sample_rag
        (lit "Risk model.") (lit "Which data?")]).
Proof.
  destruct (answer_questions_in_order
              (CohereCompassRAG.canned_model
                 [lit "A credit model."; lit "Loan data."])
              CohereCompassRAG.sample_rag (lit "Risk model.")
              [lit "What is it?"; lit "Which data?"] [])
    as (_ & Hrun & _).
  destruct (Hrun [lit "A credit model."; lit "Loan data."]) as [Heq _].
  - simpl. split; [reflexivity|]. split; [reflexivity | exact I].
  - rewrite Heq. reflexivity.
Defined.

Lemma process_white_paper_empty_fatal_witness :
  CohereCompassRAG.process_white_paper DocumentProcessor.ascii_only
    CohereCompassRAG.sample_files CohereCompassRAG.sample_rag
    (lit "empty.txt") []
  = (inl (CohereCompassRAG.ValueError
            (lit "Could not extract content from empty.txt")), [])
  /\ CohereCompassRAG.process_white_paper DocumentProcessor.ascii_only
       CohereCompassRAG.sample_files CohereCompassRAG.sample_rag
       (lit "paper.txt") []
     = (inr (lit "Risk model."), []).
Proof.
  split.
  - destruct (process_white_paper_empty_fatal DocumentProcessor.ascii_only
                CohereCompassRAG.sample_files
                (CohereCompassRAG.canned_model [])
                CohereCompassRAG.empty_object_loads
                CohereCompassRAG.sample_llm CohereCompassRAG.sample_rag
                (lit "empty.txt") [])
      as (Hempty & _ & _).
    destruct (Hempty eq_refl) as [Hraise _]. exact Hraise.
  - destruct (process_white_paper_empty_fatal DocumentProcessor.ascii_only
                CohereCompassRAG.sample_files
                (CohereCompassRAG.canned_model [])
                CohereCompassRAG.empty_object_loads
                CohereCompassRAG.sample_llm CohereCompassRAG.sample_rag
                (lit "paper.txt") [])
      as (_ & Hfull & _).
    rewrite Hfull; [reflexivity|]. vm_compute. discriminate.
Defined.

Lemma chunk_document_never_empty_witness :
  exists record,
    CohereCompassRAG.generate_summary
      (CohereCompassRAG.canned_model [lit "# Overview"])
      CohereCompassRAG.sample_llm CohereCompassRAG.sample_rag
      (lit "Risk model.") true []
    = (inr record,
       [CohereCompassRAG.summary_request CohereCompassRAG.sample_llm
          CohereCompassRAG.sample_rag (lit "Risk model.") true])
    /\ CohereCompassRAG.chunks_processed record = 1.
Proof.
  destruct (chunk_document_never_empty
              (CohereCompassRAG.canned_model [lit "# Overview"])
              CohereCompassRAG.sample_llm CohereCompassRAG.sample_rag)
    as (_ & _ & Hrun & _).
  destruct (Hrun (lit "Risk model.") true [] (lit "# Overview") eq_refl)
    as (record & Heq & Hcount & _).
  exists record. split; [exact Heq|]. rewrite Hcount. reflexivity.
Defined.

(** * Further properties *)

(** ** Strings *)

Section StripFacts.

Lemma in_lstrip (c : char) (s : pystr) : In c (lstrip s) -> In c s.
Proof.
  induction s as [|x r IH]; simpl; [auto|].
  destruct (is_space x); [right; auto | auto].
Qed.

Lemma in_rstrip (c : char) (s : pystr) : In c (rstrip s) -> In c s.
Proof.
  induction s as [|x r IH]; simpl; [auto|].
  destruct (rstrip r) as [|y r'].
  - destruct (is_space x); simpl; tauto.
  - simpl in *. tauto.
Qed.

Lemma in_strip (c : char) (s : pystr) : In c (strip s) -> In c s.
Proof. intros H. apply in_lstrip, in_rstrip, H. Qed.

Lemma lstrip_no_space (s : pystr) : starts_with_space (lstrip s) = false.
Proof.
  induction s as [|x r IH]; simpl; [reflexivity|].
  destruct (is_space x) eqn:Hx; [exact IH | simpl; exact Hx].
Qed.

Lemma rstrip_keeps_start (s : pystr) :
  starts_with_space s = false -> starts_with_space (rstrip s) = false.
Proof.
  destruct s as [|x r]; simpl; [auto|]. intros Hx.
  destruct (rstrip r); [rewrite Hx|]; simpl; exact Hx.
Qed.

Lemma rstrip_idem (s : pystr) : rstrip (rstrip s) = rstrip s.
Proof.
  induction s as [|x r IH]; simpl; [reflexivity|].
  destruct (rstrip r) as [|y r'] eqn:Hr.
  - destruct (is_space x) eqn:Hx; simpl; [|rewrite Hx]; reflexivity.
  - change (rstrip (x :: y :: r'))
      with (match rstrip (y :: r') with
            | [] => if is_space x then [] else [x]
            | z :: t => x :: z :: t
            end).
    rewrite IH. reflexivity.
Qed.

Lemma strip_no_leading_space (s : pystr) :
  starts_with_space (strip s) = false.
Proof. apply rstrip_keeps_start, lstrip_no_space. Qed.

(** Stripping twice is stripping once. *)
Lemma strip_idem (s : pystr) : strip (strip s) = strip s.
Proof.
  unfold strip at 1.
  rewrite lstrip_no_leading_space by apply strip_no_leading_space.
  unfold strip. apply rstrip_idem.
Qed.

Lemma rstrip_nil_iff (s : pystr) :
  rstrip s = [] <-> forallb is_space s = true.
Proof.
  split; [|apply rstrip_all_space].
  induction s as [|x r IH]; simpl; [reflexivity|].
  destruct (rstrip r) as [|y r']; [|discriminate].
  destruct (is_space x); [|discriminate]. intros _. apply IH. reflexivity.
Qed.

Lemma lstrip_all_space_iff (s : pystr) :
  forallb is_space (lstrip s) = forallb is_space s.
Proof.
  induction s as [|x r IH]; simpl; [reflexivity|].
  destruct (is_space x) eqn:Hx; [exact IH|]. simpl. rewrite Hx. reflexivity.
Qed.

(** A string strips to nothing exactly when it is whitespace only. *)
Lemma strip_nil_iff (s : pystr) :
  strip s = [] <-> forallb is_space s = true.
Proof.
  unfold strip. rewrite rstrip_nil_iff, lstrip_all_space_iff. reflexivity.
Qed.

(** Without a newline there is no paragraph break to split at. *)
Lemma split_go_no_newline (s : pystr) :
  forall cur,
    (forall c, In c s -> c <> LF) ->
    split_go [LF; LF] O cur s = [rev cur ++ s].
Proof.
  induction s as [|x r IH]; intros cur H.
  - simpl. rewrite rev'_rev, app_nil_r. reflexivity.
  - cbn [split_go startswith].
    assert (Hx : (x =? LF)%N = false).
    { apply N.eqb_neq. apply H. left. reflexivity. }
    rewrite Hx. cbn [andb]. rewrite IH.
    + simpl. rewrite <- app_assoc. reflexivity.
    + intros c Hc. apply H. right. exact Hc.
Qed.

Lemma split_no_newline (s : pystr) :
  (forall c, In c s -> c <> LF) -> split s [LF; LF] = [s].
Proof. intros H. apply (split_go_no_newline s [] H). Qed.

Lemma startswith_nil (s : pystr) : startswith s [] = true.
Proof. destruct s; reflexivity. Qed.

(** Splitting into lines goes through a newline. *)
Lemma split_go_lines_app (a b : pystr) :
  forall cur,
    split_go [LF] O cur (a ++ LF :: b)
    = split_go [LF] O cur a ++ split_go [LF] O [] b.
Proof.
  induction a as [|x r IH]; intros cur.
  - cbn [app split_go startswith].
    rewrite N.eqb_refl, startswith_nil. reflexivity.
  - cbn [app split_go startswith]. rewrite !startswith_nil.
    destruct (x =? LF)%N; cbn [andb Nat.pred List.length].
    + rewrite IH. reflexivity.
    + apply IH.
Qed.

Lemma split_lines_app (a b : pystr) :
  split (a ++ LF :: b) [LF] = split a [LF] ++ split b [LF].
Proof. apply split_go_lines_app. Qed.

End StripFacts.

(** ** The normalizer, further *)

Section NormalizerShape.

Import DocumentProcessor.

Variable unicode_alnum : char -> bool.

Lemma in_firstn (c : char) (n : nat) (s : pystr) :
  In c (firstn n s) -> In c s.
Proof.
  revert s. induction n as [|n IH]; intros [|x r]; simpl;
    try contradiction.
  intros [H|H]; auto.
Qed.

Lemma in_slice_to (c : char) (s : pystr) (n : Z) :
  In c (slice_to s n) -> In c s.
Proof. unfold slice_to. destruct (n <? 0); apply in_firstn. Qed.

(** What the substitution of the whitespace runs leaves: spaces, and the
    characters of the text that are no whitespace. *)
Lemma in_sub_ws (c : char) (s : pystr) :
  forall in_run,
    In c (sub_ws in_run s) -> c = SP \/ (In c s /\ is_space c = false).
Proof.
  induction s as [|x r IH]; intros in_run; simpl; [contradiction|].
  destruct (is_space x) eqn:Hx.
  - destruct in_run; simpl; intros H.
    + destruct (IH _ H) as [->|[Hin Hc]]; auto.
    + destruct H as [<-|H]; [auto|].
      destruct (IH _ H) as [->|[Hin Hc]]; auto.
  - simpl. intros [<-|H]; [auto|].
    destruct (IH _ H) as [->|[Hin Hc]]; auto.
Qed.

Lemma sub_ws_keeps (c : char) (s : pystr) :
  forall in_run,
    In c s -> is_space c = false -> In c (sub_ws in_run s).
Proof.
  induction s as [|x r IH]; intros in_run Hin Hc; [destruct Hin|].
  simpl. destruct Hin as [->|Hin].
  - rewrite Hc. left. reflexivity.
  - destruct (is_space x); [destruct in_run|]; simpl; auto.
Qed.

Lemma len_sub_ws (s : pystr) :
  forall in_run, len (sub_ws in_run s) <= len s.
Proof.
  unfold len. induction s as [|x r IH]; intros in_run; simpl; [lia|].
  pose proof (IH true). pose proof (IH false).
  destruct (is_space x); [destruct in_run|]; simpl; lia.
Qed.

Lemma len_cleaned (raw : pystr) : len (cleaned unicode_alnum raw) <= len raw.
Proof.
  unfold cleaned, sub_unsafe.
  pose proof (len_sub_ws raw false) as H.
  pose proof (filter_length_le (is_safe unicode_alnum) (sub_ws false raw)) as Hf.
  unfold len in *. lia.
Qed.

Lemma in_cleaned (c : char) (raw : pystr) :
  In c (cleaned unicode_alnum raw) ->
  is_safe unicode_alnum c = true /\ (is_space c = true -> c = SP).
Proof.
  unfold cleaned, sub_unsafe. intros H. apply filter_In in H as [Hin Hsafe].
  split; [exact Hsafe|]. intros Hsp.
  destruct (in_sub_ws _ _ _ Hin) as [->|[_ Hc]]; [reflexivity | congruence].
Qed.

Lemma in_truncation_marker (c : char) :
  In c truncation_marker ->
  is_safe unicode_alnum c = true /\ (is_space c = true -> c = SP).
Proof.
  assert (H : forallb
                (fun x => is_safe unicode_alnum x
                          && (negb (is_space x) || (x =? SP)%N))
                truncation_marker = true) by reflexivity.
  rewrite forallb_forall in H. intros Hin.
  specialize (H c Hin). apply andb_prop in H as [Hsafe Hsp].
  split; [exact Hsafe|]. intros Hc. rewrite Hc in Hsp.
  apply N.eqb_eq. exact Hsp.
Qed.

(** The result is a stripped string. *)
Lemma clean_content_strip (self : t) (raw : pystr) :
  strip (_clean_content unicode_alnum self raw)
  = _clean_content unicode_alnum self raw.
Proof.
  unfold _clean_content. destruct raw as [|x r]; [reflexivity|].
  cbv zeta. cbn [truthy negb]. apply strip_idem.
Qed.

Lemma in_clean_content (self : t) (raw : pystr) (c : char) :
  In c (_clean_content unicode_alnum self raw) ->
  is_safe unicode_alnum c = true /\ (is_space c = true -> c = SP).
Proof.
  unfold _clean_content. destruct raw as [|x r]; [intros []|].
  cbv zeta. cbn [truthy negb]. fold (cleaned unicode_alnum (x :: r)).
  intros H. apply in_strip in H.
  destruct (len (cleaned unicode_alnum (x :: r)) >? max_content_length self).
  - apply in_app_or in H as [H|H].
    + apply in_slice_to in H. exact (in_cleaned _ _ H).
    + exact (in_truncation_marker _ H).
  - exact (in_cleaned _ _ H).
Qed.

(** X1. Every character of the normalized content belongs to the class the
    second substitution keeps (word characters, whitespace and the listed
    punctuation), and the only whitespace character left is the plain
    space: the result holds no newline and no tab. *)
Theorem clean_content_alphabet (self : t) (raw : pystr) :
  Forall (fun c => is_safe unicode_alnum c = true
                   /\ (is_space c = true -> c = SP)
                   /\ c <> LF)
    (_clean_content unicode_alnum self raw).
Proof.
  apply Forall_forall. intros c H.
  destruct (in_clean_content self raw c H) as [Hsafe Hsp].
  split; [exact Hsafe|]. split; [exact Hsp|].
  intros ->. specialize (Hsp eq_refl). discriminate Hsp.
Qed.

(** X2. The normalized content never begins or ends with whitespace, and
    normalizing it is not needed twice for that: it is its own stripped
    form. *)
Theorem clean_content_stripped (self : t) (raw : pystr) :
  starts_with_space (_clean_content unicode_alnum self raw) = false
  /\ rstrip (_clean_content unicode_alnum self raw)
     = _clean_content unicode_alnum self raw
  /\ strip (_clean_content unicode_alnum self raw)
     = _clean_content unicode_alnum self raw.
Proof.
  pose proof (clean_content_strip self raw) as Hs.
  split; [|split; [|exact Hs]].
  - rewrite <- Hs. apply strip_no_leading_space.
  - rewrite <- Hs. unfold strip. apply rstrip_idem.
Qed.

(** X3. With a maximum that is not negative, the normalized content is at
    most 23 characters longer than the maximum, and at most 23 characters
    longer than the raw text; without truncation it is no longer than the
    raw text. *)
Theorem clean_content_length (self : t) (raw : pystr) :
  0 <= max_content_length self ->
  len (_clean_content unicode_alnum self raw) <= max_content_length self + 23
  /\ len (_clean_content unicode_alnum self raw) <= len raw + 23
  /\ (len (cleaned unicode_alnum raw) <= max_content_length self ->
      len (_clean_content unicode_alnum self raw) <= len raw).
Proof.
  intros H0. pose proof (len_cleaned raw) as Hc.
  pose proof (len_nonneg (cleaned unicode_alnum raw)) as Hc0.
  destruct (Z.le_gt_cases (len (cleaned unicode_alnum raw))
              (max_content_length self)) as [Hshort|Hlong].
  - rewrite clean_content_short by assumption.
    pose proof (len_strip_le (cleaned unicode_alnum raw)). lia.
  - rewrite clean_content_long by lia.
    rewrite len_app, truncation_marker_len.
    pose proof (lstrip_length
                  (firstn (Z.to_nat (max_content_length self))
                     (cleaned unicode_alnum raw))) as Hl.
    rewrite length_firstn in Hl. unfold len in *. lia.
Qed.

(** X4. For a raw text no longer than the maximum, the normalized content
    is empty exactly when every character of the text is whitespace or
    falls outside the class that is kept. *)
Theorem clean_content_empty_iff (self : t) (raw : pystr) :
  len raw <= max_content_length self ->
  (_clean_content unicode_alnum self raw = []
   <-> forall c, In c raw ->
         is_space c = true \/ is_safe unicode_alnum c = false).
Proof.
  intros Hlen. pose proof (len_cleaned raw) as Hc.
  rewrite clean_content_short by lia.
  rewrite strip_nil_iff, forallb_forall. unfold cleaned, sub_unsafe. split.
  - intros H c Hin.
    destruct (is_space c) eqn:Hsp; [left; reflexivity|].
    destruct (is_safe unicode_alnum c) eqn:Hsafe; [|right; reflexivity].
    assert (Hin' : In c (filter (is_safe unicode_alnum) (sub_ws false raw))).
    { apply filter_In. split; [apply sub_ws_keeps; assumption | exact Hsafe]. }
    specialize (H c Hin'). congruence.
  - intros H c Hin. apply filter_In in Hin as [Hin Hsafe].
    destruct (in_sub_ws _ _ _ Hin) as [->|[Hraw Hsp]]; [reflexivity|].
    destruct (H c Hraw); congruence.
Qed.

End NormalizerShape.

(** ** The chunker, further *)

Section ChunkerMore.

Import CohereCompassRAG.

Lemma len_join_app (a b : list pystr) :
  len (join para_sep a) <= len (join para_sep (a ++ b)).
Proof.
  revert a. induction b as [|x b IH]; intros a.
  - rewrite app_nil_r. lia.
  - change (a ++ x :: b) with (a ++ [x] ++ b). rewrite app_assoc.
    etransitivity; [|apply IH].
    rewrite join_snoc, len_app. pose proof (len_nonneg x).
    destruct a as [|p a'].
    + change (len (join para_sep [])) with 0.
      change (len (group_text [])) with 0. lia.
    + rewrite group_text_join by discriminate. rewrite len_app.
      pose proof (len_nonneg para_sep). lia.
Qed.

(** Paragraphs that fit together make one group. *)
Lemma greedy_groups_fit (cs : Z) (paras : list pystr) :
  forall cur,
    cur ++ paras <> [] ->
    len (join para_sep (cur ++ paras)) < cs ->
    greedy_groups cs cur paras = [cur ++ paras].
Proof.
  induction paras as [|p rest IH]; intros cur Hne Hfit.
  - rewrite app_nil_r in *. destruct cur; [congruence | reflexivity].
  - cbn [greedy_groups].
    pose proof (len_join_app (cur ++ [p]) rest) as Hmono.
    rewrite <- app_assoc in Hmono. cbn [app] in Hmono.
    rewrite join_snoc, len_app in Hmono.
    destruct (Z.ltb_spec (len (group_text cur) + len p) cs) as [_|Hfull];
      [|lia].
    rewrite IH; rewrite <- app_assoc; cbn [app]; try assumption.
    reflexivity.
Qed.

(** X5. A text shorter than the chunk size is one chunk: the text itself,
    stripped at both ends. *)
Theorem chunk_document_short_text (self : t) (content : pystr)
    (chunk_size : option Z) :
  len content < chosen_chunk_size self chunk_size ->
  _chunk_document self content chunk_size = [strip content].
Proof.
  intros Hshort. rewrite chunk_document_groups. unfold chunk_groups.
  rewrite greedy_groups_fit; cbn [app].
  - cbn [List.map]. rewrite join_split by discriminate. reflexivity.
  - apply split_nonempty.
  - rewrite join_split by discriminate. exact Hshort.
Qed.

Lemma chunk_document_no_newline (self : t) (content : pystr)
    (chunk_size : option Z) :
  (forall c, In c content -> c <> LF) ->
  _chunk_document self content chunk_size = [strip content].
Proof.
  intros H. rewrite chunk_document_groups. unfold chunk_groups, para_sep.
  rewrite split_no_newline by exact H. cbn [greedy_groups].
  destruct (len (group_text []) + len content
            <? chosen_chunk_size self chunk_size); reflexivity.
Qed.

Lemma clean_content_no_newline (unicode_alnum : char -> bool)
    (processor : DocumentProcessor.t) (raw : pystr) (c : char) :
  In c (DocumentProcessor._clean_content unicode_alnum processor raw) ->
  c <> LF.
Proof.
  intros Hc.
  destruct (in_clean_content unicode_alnum processor raw c Hc) as [_ Hsp].
  intros ->. specialize (Hsp eq_refl). discriminate Hsp.
Qed.

(** X6. Normalized content is never split: whatever its length and the
    chunk size, the chunker returns it as the one chunk, since the
    normalizer leaves no newline for a paragraph break. *)
Theorem chunk_document_of_clean_content (unicode_alnum : char -> bool)
    (self : t) (processor : DocumentProcessor.t) (raw : pystr)
    (chunk_size : option Z) :
  _chunk_document self
    (DocumentProcessor._clean_content unicode_alnum processor raw) chunk_size
  = [DocumentProcessor._clean_content unicode_alnum processor raw].
Proof.
  rewrite chunk_document_no_newline.
  - rewrite clean_content_strip. reflexivity.
  - intros c. apply clean_content_no_newline.
Qed.

Lemma length_concat_nonempty (groups : list (list pystr)) :
  Forall (fun g => g <> []) groups ->
  (List.length groups <= List.length (List.concat groups))%nat.
Proof.
  induction 1 as [|g rest Hg _ IH]; simpl; [lia|].
  rewrite length_app. destruct g; [congruence|]. simpl. lia.
Qed.

(** X7. Every chunk is stripped at both ends, and there are at most as
    many chunks as paragraphs. *)
Theorem chunk_document_stripped (self : t) (content : pystr)
    (chunk_size : option Z) :
  Forall (fun chunk => strip chunk = chunk)
    (_chunk_document self content chunk_size)
  /\ (List.length (_chunk_document self content chunk_size)
      <= List.length (split content para_sep))%nat.
Proof.
  rewrite chunk_document_groups. split.
  - apply Forall_forall. intros chunk Hc.
    apply in_map_iff in Hc as (g & <- & _). apply strip_idem.
  - rewrite length_map, <- (chunk_groups_concat self content chunk_size).
    apply length_concat_nonempty, greedy_groups_nonempty.
Qed.

End ChunkerMore.

(** ** The outline, further *)

Section OutlineMore.

Import CohereCompassRAG.

Lemma outline_of_shape (lines : list pystr) :
  Forall (fun k => strip (title k) = title k
                   /\ strip (content k) = content k)
    (outline_of lines).
Proof.
  induction lines as [|l r IH]; cbn [outline_of]; [constructor|].
  destruct (startswith l [HASH]); [|exact IH].
  constructor; [|exact IH]. cbn [title content]. unfold heading_title.
  split; apply strip_idem.
Qed.

Lemma outline_of_length (lines : list pystr) :
  List.length (outline_of lines)
  = List.length (filter (fun l => startswith l [HASH]) lines).
Proof.
  induction lines as [|l r IH]; cbn [outline_of filter]; [reflexivity|].
  destruct (startswith l [HASH]); simpl; rewrite IH; reflexivity.
Qed.

(** X8. Every section of the outline has a title that is not empty, and
    its title and its content are stripped at both ends; there are at most
    as many sections as lines that begin with the marker. *)
Theorem extract_key_sections_shape (summary_text : pystr) :
  Forall (fun k => title k <> []
                   /\ strip (title k) = title k
                   /\ strip (content k) = content k)
    (_extract_key_sections summary_text)
  /\ (List.length (_extract_key_sections summary_text)
      <= List.length (filter (fun l => startswith l [HASH])
                        (split summary_text [LF])))%nat.
Proof.
  rewrite extract_key_sections_titled. split.
  - apply Forall_forall. intros k Hk. apply filter_In in Hk as [Hin Ht].
    pose proof (outline_of_shape (split summary_text [LF])) as Hshape.
    rewrite Forall_forall in Hshape. destruct (Hshape k Hin) as [H1 H2].
    split; [|split; assumption].
    unfold titled in Ht. destruct (title k); [discriminate Ht | discriminate].
  - rewrite <- outline_of_length. apply filter_length_le.
Qed.

Lemma outline_of_skip (before lines : list pystr) :
  (forall l, In l before -> startswith l [HASH] = false) ->
  outline_of (before ++ lines) = outline_of lines.
Proof.
  induction before as [|l r IH]; intros H; [reflexivity|].
  cbn [app outline_of]. rewrite (H l (or_introl eq_refl)).
  apply IH. intros x Hx. apply H. right. exact Hx.
Qed.

(** X9. The lines above the first heading are ignored: a text put before
    the summary, none of whose lines begins with the marker, does not
    change the outline. *)
Theorem extract_key_sections_preamble (preamble summary_text : pystr) :
  (forall l, In l (split preamble [LF]) -> startswith l [HASH] = false) ->
  _extract_key_sections (preamble ++ LF :: summary_text)
  = _extract_key_sections summary_text.
Proof.
  intros H. rewrite !extract_key_sections_titled, split_lines_app.
  rewrite outline_of_skip by exact H. reflexivity.
Qed.

End OutlineMore.

(** ** The methods that call the model, further *)

Section MethodMore.

Import CohereCompassRAG.

Variable unicode_alnum : char -> bool.
Variable fs : pystr -> DocumentProcessor.file_view.
Variable model_reply : history -> ChatRequest -> exn + pystr.
Variable json_loads : pystr -> parse_outcome.
Variable llm : Config.LLMConfig.

(** The loop when the model answers the first questions and fails on the
    next one. *)
Lemma answer_loop_failure (self : t) (document_content : pystr)
    (before : list pystr) (question : pystr) (after : list pystr) (e : exn) :
  forall texts answers h,
    replies_to model_reply h
      (List.map (question_request self document_content) before) texts ->
    model_reply
      (h ++ List.map (question_request self document_content) before)
      (question_request self document_content question) = inl e ->
    answer_loop model_reply self document_content
      (before ++ question :: after) answers h
    = (inl e,
       h ++ List.map (question_request self document_content) before
         ++ [question_request self document_content question]).
Proof.
  induction before as [|q rest IH]; intros texts answers h Hrep Hfail.
  - cbn [app List.map] in *. rewrite app_nil_r in Hfail.
    cbn [answer_loop]. unfold bind, chat. rewrite Hfail. reflexivity.
  - destruct texts as [|t texts']; [destruct Hrep|].
    destruct Hrep as [Hq Hrest].
    cbn [app answer_loop]. unfold bind, chat. rewrite Hq.
    cbn [List.map] in Hfail.
    rewrite (IH texts' (dict_set q t answers)
               (h ++ [question_request self document_content q]) Hrest).
    + cbn [List.map app]. rewrite <- app_assoc. reflexivity.
    + rewrite <- app_assoc. exact Hfail.
Qed.

(** X10. When the model fails on a question, the method raises that error:
    the questions after it are not asked and the answers obtained before
    are not returned. *)
Theorem answer_questions_failure (self : t) (document_content : pystr)
    (before : list pystr) (question : pystr) (after : list pystr)
    (texts : list pystr) (e : exn) (h : history) :
  replies_to model_reply h
    (List.map (question_request self document_content) before) texts ->
  model_reply
    (h ++ List.map (question_request self document_content) before)
    (question_request self document_content question) = inl e ->
  answer_questions model_reply self document_content
    (before ++ question :: after) h
  = (inl e,
     h ++ List.map (question_request self document_content) before
       ++ [question_request self document_content question]).
Proof. intros Hrep Hfail. exact (answer_loop_failure _ _ _ _ _ _ _ _ _ Hrep Hfail). Qed.

Lemma assign_all_other (q : pystr) (questions : list pystr) :
  forall texts answers,
    ~ In q questions ->
    dict_get q (assign_all questions texts answers) = dict_get q answers.
Proof.
  induction questions as [|k rest IH]; intros texts answers Hq;
    [reflexivity|].
  destruct texts as [|t texts']; [reflexivity|].
  change (assign_all (k :: rest) (t :: texts') answers)
    with (assign_all rest texts' (dict_set k t answers)).
  rewrite IH by (intros Hin; apply Hq; right; exact Hin).
  rewrite dict_get_set.
  destruct (str_eqb q k) eqn:Hk; [|reflexivity].
  apply str_eqb_eq in Hk. subst k. destruct Hq. left. reflexivity.
Qed.

Lemma assign_all_latest (q : pystr) (after : list pystr)
    (before : list pystr) :
  forall texts answers,
    List.length texts = List.length (before ++ q :: after) ->
    ~ In q after ->
    dict_get q (assign_all (before ++ q :: after) texts answers)
    = nth_error texts (List.length before).
Proof.
  induction before as [|b rest IH]; intros texts answers Hlen Hq;
    (destruct texts as [|t texts']; [discriminate Hlen|]).
  - change (assign_all ([] ++ q :: after) (t :: texts') answers)
      with (assign_all after texts' (dict_set q t answers)).
    rewrite assign_all_other by exact Hq.
    rewrite dict_get_set, str_eqb_refl. reflexivity.
  - change (assign_all ((b :: rest) ++ q :: after) (t :: texts') answers)
      with (assign_all (rest ++ q :: after) texts' (dict_set b t answers)).
    rewrite IH; [reflexivity | | exact Hq].
    simpl in Hlen. injection Hlen as Hlen. exact Hlen.
Qed.

(** X11. When a question comes several times, the mapping returned holds
    for it the answer to its last occurrence. *)
Theorem answer_questions_latest (self : t) (document_content : pystr)
    (before : list pystr) (question : pystr) (after : list pystr)
    (texts : list pystr) (h : history) :
  replies_to model_reply h
    (List.map (question_request self document_content)
       (before ++ question :: after)) texts ->
  ~ In question after ->
  exists answers,
    answer_questions model_reply self document_content
      (before ++ question :: after) h
    = (inr answers,
       h ++ List.map (question_request self document_content)
              (before ++ question :: after))
    /\ dict_get question answers = nth_error texts (List.length before).
Proof.
  intros Hrep Hq. exists (assign_all (before ++ question :: after) texts []).
  split.
  - apply answer_loop_replies, Hrep.
  - apply assign_all_latest; [|exact Hq].
    rewrite (replies_to_length _ _ _ _ Hrep), length_map. reflexivity.
Qed.

Lemma chunk_document_empty_text (self : t) (chunk_size : option Z) :
  _chunk_document self [] chunk_size = [[]].
Proof.
  rewrite chunk_document_no_newline; [reflexivity|]. intros c [].
Qed.

(** What [process_document] returns is one chunk for the chunker. *)
Lemma process_document_one_chunk (self : t) (file_path : pystr)
    (chunk_size : option Z) :
  _chunk_document self
    (DocumentProcessor.process_document unicode_alnum fs (doc_processor self)
       file_path) chunk_size
  = [DocumentProcessor.process_document unicode_alnum fs (doc_processor self)
       file_path].
Proof.
  unfold DocumentProcessor.process_document. cbv zeta.
  destruct (negb (DocumentProcessor.fv_exists (fs file_path)));
    [apply chunk_document_empty_text|].
  destruct (negb (existsb
                    (str_eqb (DocumentProcessor.fv_suffix (fs file_path)))
                    (DocumentProcessor.supported_formats (doc_processor self))));
    [apply chunk_document_empty_text|].
  destruct (DocumentProcessor.fv_extracted (fs file_path)) as [raw|];
    [|apply chunk_document_empty_text].
  rewrite chunk_document_no_newline.
  - rewrite clean_content_strip. reflexivity.
  - intros c. apply clean_content_no_newline.
Qed.

(** X12. The request of the application on a file whose extraction is not
    empty. If the summary call fails, the request fails after that one
    call. If it succeeds, the record holds the reply, the length of the
    whole content, a chunk count of 1 whatever that length, and the outline
    of the reply; without key information the request ends there. With key
    information asked for, a second call follows on the same content: its
    failure fails the whole request, the summary obtained being dropped.
    Its reply is stored as parsed when [json.loads] returns, and as the
    mapping with the one field [raw_response] when [json.loads] raises
    [JSONDecodeError]; any other exception of [json.loads] fails the whole
    request as well. *)
Theorem summarize_white_paper_run (self : t) (file_path : pystr)
    (include_details : bool) (h : history) :
  DocumentProcessor.process_document unicode_alnum fs (doc_processor self)
    file_path <> [] ->
  let document_content :=
    DocumentProcessor.process_document unicode_alnum fs (doc_processor self)
      file_path in
  let first_call := summary_request llm self document_content include_details in
  let second_call := extraction_request self document_content in
  let record summary_text key_info :=
    {| summary := summary_text;
       document_length := len document_content;
       chunks_processed := 1;
       model_used := model self;
       key_sections := _extract_key_sections summary_text;
       key_information := key_info |} in
  (forall e extract_key_info,
      model_reply h first_call = inl e ->
      summarize_white_paper unicode_alnum fs model_reply json_loads llm self
        file_path include_details extract_key_info h
      = (inl e, h ++ [first_call]))
  /\ (forall summary_text,
        model_reply h first_call = inr summary_text ->
        summarize_white_paper unicode_alnum fs model_reply json_loads llm self
          file_path include_details false h
        = (inr (record summary_text None), h ++ [first_call]))
  /\ (forall summary_text e,
        model_reply h first_call = inr summary_text ->
        model_reply (h ++ [first_call]) second_call = inl e ->
        summarize_white_paper unicode_alnum fs model_reply json_loads llm self
          file_path include_details true h
        = (inl e, (h ++ [first_call]) ++ [second_call]))
  /\ (forall summary_text text parsed,
        model_reply h first_call = inr summary_text ->
        model_reply (h ++ [first_call]) second_call = inr text ->
        json_loads text = Parsed parsed ->
        summarize_white_paper unicode_alnum fs model_reply json_loads llm self
          file_path include_details true h
        = (inr (record summary_text (Some parsed)),
           (h ++ [first_call]) ++ [second_call]))
  /\ (forall summary_text text,
        model_reply h first_call = inr summary_text ->
        model_reply (h ++ [first_call]) second_call = inr text ->
        json_loads text = JSONDecodeError ->
        summarize_white_paper unicode_alnum fs model_reply json_loads llm self
          file_path include_details true h
        = (inr (record summary_text
                  (Some (JDict [(lit "raw_response", JStr text)]))),
           (h ++ [first_call]) ++ [second_call]))
  /\ (forall summary_text text e,
        model_reply h first_call = inr summary_text ->
        model_reply (h ++ [first_call]) second_call = inr text ->
        json_loads text = ParserRaises e ->
        summarize_white_paper unicode_alnum fs model_reply json_loads llm self
          file_path include_details true h
        = (inl e, (h ++ [first_call]) ++ [second_call])).
Proof.
  intros Hne. cbv zeta.
  pose proof (process_document_one_chunk self file_path None) as Hone.
  unfold summarize_white_paper, process_white_paper, generate_summary,
    extract_key_information, bind, chat, ret.
  destruct (DocumentProcessor.process_document unicode_alnum fs
              (doc_processor self) file_path) as [|c r] eqn:Hdoc;
    [congruence|].
  cbn [truthy negb]. rewrite Hone.
  cbn [List.length Z.of_nat Pos.of_succ_nat].
  split; [|split; [|split; [|split; [|split]]]].
  - intros e extract_key_info Hfail. rewrite Hfail. reflexivity.
  - intros summary_text Hs. rewrite Hs. reflexivity.
  - intros summary_text e Hs Hfail. rewrite Hs, Hfail. reflexivity.
  - intros summary_text text parsed Hs Ht Hp. rewrite Hs, Ht, Hp.
    reflexivity.
  - intros summary_text text Hs Ht Hp. rewrite Hs, Ht, Hp. reflexivity.
  - intros summary_text text e Hs Ht Hp. rewrite Hs, Ht, Hp. reflexivity.
Qed.

(** X13. Why the extraction of a white paper fails: a file that does not
    exist, a suffix that is not supported, a reader that raises and a text
    that normalizes to nothing all end in the same [ValueError]; no other
    error comes out of the method. When it returns, the file exists, its
    suffix is supported and the content is the normalized text of the
    reader. *)
Theorem process_white_paper_causes (self : t) (file_path : pystr)
    (h : history) :
  ((DocumentProcessor.fv_exists (fs file_path) = false
    \/ existsb (str_eqb (DocumentProcessor.fv_suffix (fs file_path)))
         (DocumentProcessor.supported_formats (doc_processor self)) = false
    \/ DocumentProcessor.fv_extracted (fs file_path) = None
    \/ exists raw,
         DocumentProcessor.fv_extracted (fs file_path) = Some raw
         /\ DocumentProcessor._clean_content unicode_alnum
              (doc_processor self) raw = []) ->
   process_white_paper unicode_alnum fs self file_path h
   = (inl (ValueError (lit "Could not extract content from " ++ file_path)),
      h))
  /\ (forall e h',
        process_white_paper unicode_alnum fs self file_path h = (inl e, h') ->
        e = ValueError (lit "Could not extract content from " ++ file_path)
        /\ h' = h)
  /\ (forall document_content h',
        process_white_paper unicode_alnum fs self file_path h
        = (inr document_content, h') ->
        h' = h
        /\ document_content <> []
        /\ DocumentProcessor.fv_exists (fs file_path) = true
        /\ existsb (str_eqb (DocumentProcessor.fv_suffix (fs file_path)))
             (DocumentProcessor.supported_formats (doc_processor self)) = true
        /\ exists raw,
             DocumentProcessor.fv_extracted (fs file_path) = Some raw
             /\ document_content
                = DocumentProcessor._clean_content unicode_alnum
                    (doc_processor self) raw).
Proof.
  unfold process_white_paper, DocumentProcessor.process_document, raise, ret.
  cbv zeta.
  destruct (DocumentProcessor.fv_exists (fs file_path)) eqn:Hex;
  destruct (existsb (str_eqb (DocumentProcessor.fv_suffix (fs file_path)))
              (DocumentProcessor.supported_formats (doc_processor self)))
    eqn:Hsuf;
  destruct (DocumentProcessor.fv_extracted (fs file_path)) as [raw|] eqn:Hraw;
  cbn [negb truthy];
  try (split; [reflexivity|];
       split; [intros e h' H; injection H as <- <-; auto
              | intros d h' H; discriminate H]).
  destruct (DocumentProcessor._clean_content unicode_alnum
              (doc_processor self) raw) as [|c r] eqn:Hclean;
    cbn [negb truthy].
  - split; [reflexivity|].
    split; [intros e h' H; injection H as <- <-; auto
           | intros d h' H; discriminate H].
  - split; [|split].
    + intros [H|[H|[H|(raw' & Hr & Hc)]]]; try discriminate H.
      injection Hr as <-. congruence.
    + intros e h' H. discriminate H.
    + intros d h' H. injection H as <- <-.
      split; [reflexivity|]. split; [discriminate|].
      split; [reflexivity|]. split; [reflexivity|].
      exists raw. split; [reflexivity | auto].
Qed.

(** X14. The prompts are bounded whatever the length of the document: their
    lengths are those of the fixed texts plus the part of the content that
    is embedded, at most 52,265 characters for the summary prompt, 30,766
    for the extraction prompt and 30,265 plus the question for a question
    prompt. *)
Theorem prompt_lengths (content question : pystr) :
  len (_create_summary_prompt content true)
  = 2265 + Z.min (len content) 50000
  /\ len (_create_summary_prompt content false)
     = 512 + Z.min (len content) 50000
  /\ len (extraction_prompt content) = 766 + Z.min (len content) 30000
  /\ len (question_prompt content question)
     = 265 + Z.min (len content) 30000 + len question
  /\ (forall include_details,
        len (_create_summary_prompt content include_details) <= 52265)
  /\ len (extraction_prompt content) <= 30766
  /\ len (question_prompt content question) <= 30265 + len question.
Proof.
  assert (Hbase : len base_prompt = 408) by reflexivity.
  assert (Hdet : len detailed_instructions = 1854) by reflexivity.
  assert (Hconc : len concise_instructions = 101) by reflexivity.
  assert (Heh : len extraction_prompt_head = 719) by reflexivity.
  assert (Het : len extraction_prompt_tail = 47) by reflexivity.
  assert (Hqh : len question_prompt_head = 119) by reflexivity.
  assert (Hqt : len question_prompt_tail = 134) by reflexivity.
  assert (Hq : len (lit "QUESTION: ") = 10) by reflexivity.
  assert (H1 : len (_create_summary_prompt content true)
               = 2265 + Z.min (len content) 50000).
  { unfold _create_summary_prompt. rewrite summary_content_min.
    rewrite !len_app, len_firstn_min, Hbase, Hdet by lia.
    change (len [LF]) with 1. change (len [LF; LF]) with 2. lia. }
  assert (H2 : len (_create_summary_prompt content false)
               = 512 + Z.min (len content) 50000).
  { unfold _create_summary_prompt. rewrite summary_content_min.
    rewrite !len_app, len_firstn_min, Hbase, Hconc by lia.
    change (len [LF]) with 1. change (len [LF; LF]) with 2. lia. }
  assert (H3 : len (extraction_prompt content)
               = 766 + Z.min (len content) 30000).
  { unfold extraction_prompt. rewrite slice_to_min by lia.
    rewrite !len_app, len_firstn_min, Heh, Het by lia. lia. }
  assert (H4 : len (question_prompt content question)
               = 265 + Z.min (len content) 30000 + len question).
  { unfold question_prompt. rewrite slice_to_min by lia.
    rewrite !len_app, len_firstn_min, Hqh, Hqt, Hq by lia.
    change (len [LF; LF]) with 2. lia. }
  repeat (split; [assumption|]).
  split; [|split].
  - intros [|]; [rewrite H1 | rewrite H2]; lia.
  - rewrite H3. lia.
  - rewrite H4. lia.
Qed.

End MethodMore.

(** ** The PDF reader and the content analysis *)

Section AnalysisFacts.

Import DocumentAnalysis.

Variable unicode_alnum : char -> bool.
Variable str_lower : pystr -> pystr.

(** From page index [k] on, the loop reads [150 - k] pages at most. *)
Lemma pdf_pages_cap (pages : list (option pystr)) :
  forall k content,
    (k <= 150)%nat ->
    pdf_pages k pages content
    = pdf_pages k (firstn (150 - k) pages) content.
Proof.
  induction pages as [|page rest IH]; intros k content Hk.
  - rewrite firstn_nil. reflexivity.
  - cbn [pdf_pages]. destruct (Nat.leb_spec 150 k) as [Hge|Hlt].
    + replace (150 - k)%nat with O by lia. reflexivity.
    + replace (150 - k)%nat with (S (150 - S k)) by lia.
      cbn [firstn pdf_pages].
      destruct (Nat.leb_spec 150 k) as [Hge|_]; [lia|].
      destruct page as [page_text|]; [|reflexivity].
      apply IH. lia.
Qed.

Lemma pdf_pages_raises (pages : list (option pystr)) :
  forall k content,
    In None (firstn (150 - k) pages) -> pdf_pages k pages content = None.
Proof.
  induction pages as [|page rest IH]; intros k content Hin.
  - rewrite firstn_nil in Hin. destruct Hin.
  - cbn [pdf_pages]. destruct (Nat.leb_spec 150 k) as [Hge|Hlt].
    + replace (150 - k)%nat with O in Hin by lia. destruct Hin.
    + replace (150 - k)%nat with (S (150 - S k)) in Hin by lia.
      cbn [firstn] in Hin. destruct Hin as [->|Hin]; [reflexivity|].
      destruct page as [page_text|]; [|reflexivity].
      apply IH. exact Hin.
Qed.

(** X15. The PDF reader reads the first 150 pages only: the result is that
    of the file cut after its 150th page, whatever the later pages hold,
    a page that cannot be read included. A page among the first 150 that
    cannot be read makes the result empty, and so does a missing [pypdf]
    package. *)
Theorem process_pdf_page_cap (self : DocumentProcessor.t)
    (pages : list (option pystr)) :
  _process_pdf unicode_alnum true self (Some pages)
  = _process_pdf unicode_alnum true self (Some (firstn 150 pages))
  /\ (In None (firstn 150 pages) ->
      _process_pdf unicode_alnum true self (Some pages) = [])
  /\ (forall pdf, _process_pdf unicode_alnum false self pdf = []).
Proof.
  split; [|split].
  - unfold _process_pdf. cbn [negb].
    rewrite (pdf_pages_cap pages O [] (Nat.le_0_l _)).
    rewrite (pdf_pages_cap (firstn 150 pages) O [] (Nat.le_0_l _)).
    rewrite Nat.sub_0_r, firstn_firstn, Nat.min_id. reflexivity.
  - intros Hin. unfold _process_pdf. cbn [negb].
    rewrite pdf_pages_raises; [reflexivity|].
    rewrite Nat.sub_0_r. exact Hin.
  - reflexivity.
Qed.

(** The loop over the keywords keeps those that occur, in their order. *)
Lemma find_keywords_filter (content_lower : pystr) (keywords : list pystr) :
  forall found,
    find_keywords content_lower keywords found
    = found ++ filter (contains content_lower) keywords.
Proof.
  induction keywords as [|k rest IH]; intros found; cbn [find_keywords filter].
  - rewrite app_nil_r. reflexivity.
  - rewrite IH. destruct (contains content_lower k);
      [rewrite <- app_assoc|]; reflexivity.
Qed.

Lemma in_firstn_list (k : pystr) (n : nat) (l : list pystr) :
  In k (firstn n l) -> In k l.
Proof.
  revert l. induction n as [|n IH]; intros [|x r]; simpl;
    try contradiction.
  intros [H|H]; auto.
Qed.

(** X16. The four keyword scans report the keywords of their fixed lists
    that occur in the lower-cased content, in the order of the list and
    each once, cut after the first 10, 5, 5 and 8 of them. *)
Theorem keyword_scans (content : pystr) :
  _extract_key_topics str_lower content
  = firstn 10 (filter (contains (str_lower content)) topic_keywords)
  /\ _identify_risk_indicators str_lower content
     = firstn 5 (filter (contains (str_lower content)) risk_keywords)
  /\ _identify_compliance_keywords str_lower content
     = firstn 5 (filter (contains (str_lower content)) compliance_keywords)
  /\ _identify_technical_terms str_lower content
     = firstn 8 (filter (contains (str_lower content)) technical_terms)
  /\ (List.length (_extract_key_topics str_lower content) <= 10)%nat
  /\ (List.length (_identify_risk_indicators str_lower content) <= 5)%nat
  /\ (List.length (_identify_compliance_keywords str_lower content) <= 5)%nat
  /\ (List.length (_identify_technical_terms str_lower content) <= 8)%nat
  /\ NoDup (_extract_key_topics str_lower content)
  /\ forall keyword,
       In keyword (_extract_key_topics str_lower content) ->
       In keyword topic_keywords
       /\ contains (str_lower content) keyword = true.
Proof.
  unfold _extract_key_topics, _identify_risk_indicators,
    _identify_compliance_keywords, _identify_technical_terms.
  rewrite !find_keywords_filter. cbn [app].
  repeat (split; [reflexivity|]).
  repeat (split; [rewrite length_firstn; lia|]).
  split.
  - assert (Hnd : NoDup topic_keywords).
    { apply (NoDup_map_inv
               (fun s => string_of_list_ascii (List.map ascii_of_N s))).
      vm_compute. repeat (constructor; [simpl; intuition discriminate|]).
      constructor. }
    assert (Hf : NoDup (filter (contains (str_lower content)) topic_keywords))
      by (apply NoDup_filter, Hnd).
    rewrite <- (firstn_skipn 10) in Hf. apply NoDup_app_remove_r in Hf.
    exact Hf.
  - intros keyword Hin. apply in_firstn_list in Hin.
    apply filter_In in Hin. exact Hin.
Qed.

Lemma startswith_in (s sub : pystr) (c : char) :
  startswith s sub = true -> In c sub -> In c s.
Proof.
  intros Hs Hc. destruct (startswith_app _ _ Hs) as [rest ->].
  apply in_or_app. left. exact Hc.
Qed.

Lemma contains_in (s sub : pystr) (c : char) :
  contains s sub = true -> In c sub -> In c s.
Proof.
  induction s as [|x r IH]; cbn [contains]; intros H Hc.
  - rewrite orb_false_r in H. exact (startswith_in _ _ _ H Hc).
  - apply orb_prop in H as [H|H]; [exact (startswith_in _ _ _ H Hc)|].
    right. exact (IH H Hc).
Qed.

(** X17. The technical term [AI] is never reported: the content is
    lower-cased before the scan and the term is written in capitals. The
    hypothesis is what [str.lower] guarantees, a result without capital
    ASCII letters. *)
Theorem technical_terms_never_AI (content : pystr) :
  (forall s c, In c (str_lower s) -> between 65 90 c = false) ->
  ~ In (lit "AI") (_identify_technical_terms str_lower content).
Proof.
  intros Hlower Hin. unfold _identify_technical_terms in Hin.
  rewrite find_keywords_filter in Hin. cbn [app] in Hin.
  apply in_firstn_list in Hin. apply filter_In in Hin as [_ Hc].
  assert (HA : In (ch "A") (str_lower content)).
  { apply (contains_in _ _ _ Hc). left. reflexivity. }
  specialize (Hlower _ _ HA). discriminate Hlower.
Qed.

Lemma len_slice_to_le (s : pystr) (n : Z) :
  0 <= n -> len (slice_to s n) <= n.
Proof.
  intros Hn. rewrite slice_to_nonneg by exact Hn.
  unfold len. rewrite length_firstn. lia.
Qed.

(** X18. The brief summary of a content is at most 303 characters long; a
    content of fewer than 200 characters is returned as it is, and a longer
    one never gives the empty string. *)
Theorem generate_content_summary_bound (content : pystr) :
  len (_generate_content_summary content) <= 303
  /\ (len content < 200 -> _generate_content_summary content = content)
  /\ (200 <= len content -> _generate_content_summary content <> []).
Proof.
  assert (Hdots : len (lit "...") = 3) by reflexivity.
  assert (Hsep : len (lit ". ") = 2) by reflexivity.
  unfold _generate_content_summary. cbv zeta.
  destruct (Z.ltb_spec (len content) 200) as [Hshort|Hlong].
  - split; [lia|]. split; [reflexivity | lia].
  - assert (Hne : forall a b : pystr, 0 < len b -> a ++ b <> []).
    { intros a b Hb Heq. apply app_eq_nil in Heq as [_ ->].
      change (len []) with 0 in Hb. lia. }
    destruct (2 <=? List.length (split content [ch "."]))%nat.
    + match goal with
      | |- context [if len ?x >? 300 then _ else _] => set (summary := x)
      end.
      destruct (Z.gtb_spec (len summary) 300) as [Hgt|Hle].
      * split; [|split; [lia|]].
        -- rewrite len_app, Hdots.
           pose proof (len_slice_to_le summary 300). lia.
        -- intros _. apply Hne. rewrite Hdots. lia.
      * split; [lia|].
        split; [lia|]. intros _. unfold summary.
        intros Heq. apply app_eq_nil in Heq as [_ Heq].
        apply app_eq_nil in Heq as [Heq _]. discriminate Heq.
    + destruct (Z.gtb_spec (len content) 300) as [Hgt|Hle].
      * split; [|split; [lia|]].
        -- rewrite len_app, Hdots.
           pose proof (len_slice_to_le content 300). lia.
        -- intros _. apply Hne. rewrite Hdots. lia.
      * split; [lia|]. split; [lia|]. intros _ ->.
        change (len []) with 0 in Hlong. lia.
Qed.

End AnalysisFacts.

(** ** Further runs on the stand-ins *)

Lemma clean_content_length_witness :
  0 <= DocumentProcessor.max_content_length DocumentProcessor.init
  /\ len (DocumentProcessor._clean_content DocumentProcessor.ascii_only
            DocumentProcessor.init DocumentProcessor.long_text)
     <= DocumentProcessor.max_content_length DocumentProcessor.init + 23.
Proof.
  assert (H0 : 0 <= DocumentProcessor.max_content_length DocumentProcessor.init)
    by (unfold DocumentProcessor.init, DocumentProcessor.max_content_length; lia).
  split; [exact H0|].
  exact (proj1 (clean_content_length DocumentProcessor.ascii_only
                  DocumentProcessor.init DocumentProcessor.long_text H0)).
Defined.

Lemma clean_content_empty_iff_witness :
  DocumentProcessor._clean_content DocumentProcessor.ascii_only
    DocumentProcessor.init (lit "@ # $") = [].
Proof.
  apply (clean_content_empty_iff DocumentProcessor.ascii_only
           DocumentProcessor.init (lit "@ # $")).
  - vm_compute. discriminate.
  - intros c Hin. vm_compute in Hin.
    destruct Hin as [<-|[<-|[<-|[<-|[<-|[]]]]]];
      first [left; reflexivity | right; reflexivity].
Defined.

Lemma chunk_document_short_text_witness :
  CohereCompassRAG._chunk_document CohereCompassRAG.sample_rag
    ([SP] ++ lit "Risk model." ++ [LF; LF] ++ lit "Data." ++ [LF]) None
  = [lit "Risk model." ++ [LF; LF] ++ lit "Data."].
Proof.
  rewrite chunk_document_short_text; reflexivity.
Defined.

Lemma extract_key_sections_preamble_witness :
  CohereCompassRAG._extract_key_sections
    (lit "Here is the summary:" ++ LF :: CohereCompassRAG.two_sections_text)
  = CohereCompassRAG._extract_key_sections CohereCompassRAG.two_sections_text.
Proof.
  apply extract_key_sections_preamble. intros l Hin.
  vm_compute in Hin. destruct Hin as [<-|[]]. reflexivity.
Defined.

Lemma answer_questions_failure_witness :
  CohereCompassRAG.answer_questions
    (CohereCompassRAG.canned_model [lit "A credit model."])
    CohereCompassRAG.sample_rag (lit "Risk model.")
    ([lit "What is it?"] ++ lit "Which data?" :: [lit "Who owns it?"]) []
  = (inl (CohereCompassRAG.ClientError (lit "no reply left")),
     [] ++ List.map
             (CohereCompassRAG.question_request CohereCompassRAG.sample_rag
                (lit "Risk model."))
             [lit "What is it?"]
        ++ [CohereCompassRAG.question_request CohereCompassRAG.sample_rag
              (lit "Risk model.") (lit "Which data?")]).
Proof.
  apply (answer_questions_failure
           (CohereCompassRAG.canned_model [lit "A credit model."])
           CohereCompassRAG.sample_rag (lit "Risk model.")
           [lit "What is it?"] (lit "Which data?") [lit "Who owns it?"]
           [lit "A credit model."]).
  - simpl. split; [reflexivity | exact I].
  - reflexivity.
Defined.

Lemma answer_questions_latest_witness :
  exists answers,
    CohereCompassRAG.answer_questions
      (CohereCompassRAG.canned_model [lit "First."; lit "Second."])
      CohereCompassRAG.sample_rag (lit "Risk model.")
      ([lit "What is it?"] ++ lit "What is it?" :: []) []
    = (inr answers,
       [] ++ List.map
               (CohereCompassRAG.question_request CohereCompassRAG.sample_rag
                  (lit "Risk model."))
               ([lit "What is it?"] ++ lit "What is it?" :: []))
    /\ CohereCompassRAG.dict_get (lit "What is it?") answers
       = Some (lit "Second.").
Proof.
  apply (answer_questions_latest
           (CohereCompassRAG.canned_model [lit "First."; lit "Second."])
           CohereCompassRAG.sample_rag (lit "Risk model.")
           [lit "What is it?"] (lit "What is it?") []
           [lit "First."; lit "Second."] []).
  - simpl. split; [reflexivity|]. split; [reflexivity | exact I].
  - intros [].
Defined.

Lemma summarize_white_paper_run_witness :
  CohereCompassRAG.summarize_white_paper DocumentProcessor.ascii_only
    CohereCompassRAG.sample_files
    (CohereCompassRAG.canned_model [lit "# Overview"; lit "{}"])
    CohereCompassRAG.empty_object_loads CohereCompassRAG.sample_llm
    CohereCompassRAG.sample_rag (lit "paper.txt") true true []
  = (inr {| CohereCompassRAG.summary := lit "# Overview";
            CohereCompassRAG.document_length := 11;
            CohereCompassRAG.chunks_processed := 1;
            CohereCompassRAG.model_used := lit "command-a-03-2025";
            CohereCompassRAG.key_sections :=
              [{| CohereCompassRAG.title := lit "Overview";
                  CohereCompassRAG.content := [] |}];
            CohereCompassRAG.key_information :=
              Some (CohereCompassRAG.JDict []) |},
     [CohereCompassRAG.summary_request CohereCompassRAG.sample_llm
        CohereCompassRAG.sample_rag (lit "Risk model.") true;
      CohereCompassRAG.extraction_request CohereCompassRAG.sample_rag
        (lit "Risk model.")]).
Proof.
  assert (Hne : DocumentProcessor.process_document DocumentProcessor.ascii_only
                  CohereCompassRAG.sample_files
                  (CohereCompassRAG.doc_processor CohereCompassRAG.sample_rag)
                  (lit "paper.txt") <> [])
    by (vm_compute; discriminate).
  destruct (summarize_white_paper_run DocumentProcessor.ascii_only
              CohereCompassRAG.sample_files
              (CohereCompassRAG.canned_model [lit "# Overview"; lit "{}"])
              CohereCompassRAG.empty_object_loads CohereCompassRAG.sample_llm
              CohereCompassRAG.sample_rag (lit "paper.txt") true [] Hne)
    as (_ & _ & _ & Hboth & _).
  rewrite (Hboth (lit "# Overview") (lit "{}") (CohereCompassRAG.JDict [])
             eq_refl eq_refl eq_refl).
  vm_compute. reflexivity.
Defined.

Lemma process_white_paper_causes_witness :
  CohereCompassRAG.process_white_paper DocumentProcessor.ascii_only
    CohereCompassRAG.sample_files CohereCompassRAG.sample_rag
    (lit "missing.pdf") []
  = (inl (CohereCompassRAG.ValueError
            (lit "Could not extract content from " ++ lit "missing.pdf")),
     []).
Proof.
  apply (process_white_paper_causes DocumentProcessor.ascii_only
           CohereCompassRAG.sample_files CohereCompassRAG.sample_rag
           (lit "missing.pdf") []).
  left. reflexivity.
Defined.

Lemma ascii_lower_no_capital (s : pystr) (c : char) :
  In c (DocumentAnalysis.ascii_lower s) -> between 65 90 c = false.
Proof.
  unfold DocumentAnalysis.ascii_lower. intros Hin.
  apply in_map_iff in Hin as (x & <- & _).
  unfold between.
  destruct (N.leb_spec 65 x) as [Hlo|Hlo]; cbn [andb].
  - destruct (N.leb_spec x 90) as [Hhi|Hhi]; cbn [andb].
    + apply andb_false_iff. right. apply N.leb_gt. lia.
    + apply andb_false_iff. right. apply N.leb_gt. lia.
  - apply andb_false_iff. left. apply N.leb_gt. lia.
Qed.

Lemma technical_terms_never_AI_witness :
  ~ In (lit "AI")
      (DocumentAnalysis._identify_technical_terms DocumentAnalysis.ascii_lower
         (lit "An AI algorithm")).
Proof.
  exact (technical_terms_never_AI DocumentAnalysis.ascii_lower
           (lit "An AI algorithm") ascii_lower_no_capital).
Defined.
